(** * NanoFig: the interactive image-geometry editor

    A shallow embedding of the two stateful components of the application:

    - [ImagePreview] (the pan / zoom / rotate viewport), and
    - [ImageCropper] (the aspect-locked crop rectangle),

    and of the code around them: the controls of the viewport, the props
    [App] opens the cropper with, the [useHistoryState] hook, the preset and
    generation-history updaters of [App], the file check of [ImageUploader]
    and the error handling of [transformImage].

    Numbers.  A JavaScript [number] is modelled as an exact rational [Q]:
    [+], [-], [*], [/] are the field operations, [===] on numbers is [Qeq]
    (computed by [Qeq_bool]), [<], [<=] are [Qlt], [Qle].  Rounding, NaN and
    the infinities of IEEE-754 are therefore outside the model.  In
    particular [x / 0] is [0] in [Q] where JavaScript gives an infinity or
    NaN: the model of a division is the code's only for a divisor other
    than zero, and the theorems about the functions that divide assume
    it.  The rotation
    angle, which the code only ever moves by [+90], [-90] and [% 360] from
    [0], is an integer [Z]; JavaScript's [%] is the truncating remainder
    [Z.rem].

    React.  Every handler is a function from the committed state (and the
    event) to the next committed state; events are handled one at a time, in
    arrival order.  [useState] cells and [useRef] cells are fields of one
    state record. *)

From Stdlib Require Import QArith Qround Lqa ZArith Lia List Bool String
  DecimalString.
Import ListNotations.

Open Scope Q_scope.

(** ** JavaScript primitives used by both components *)

Module JS.

(** [a < b] and [a > b] on numbers, as booleans. *)
Definition ltb (a b : Q) : bool := negb (Qle_bool b a).
Definition gtb (a b : Q) : bool := ltb b a.

(** [Math.max(a, b)] and [Math.min(a, b)]. *)
Definition Math_max (a b : Q) : Q := if Qle_bool a b then b else a.
Definition Math_min (a b : Q) : Q := if Qle_bool a b then a else b.

(** Truthiness of a [string | null] value: [null] and the empty string are
    falsy. *)
Definition truthy (s : option string) : bool :=
  match s with
  | None => false
  | Some s' => negb (String.eqb s' EmptyString)
  end.

(** Truthiness of a number: [0] is falsy. *)
Definition truthy_num (q : Q) : bool := negb (Qeq_bool q 0).

(** [s.includes(c)] and [s.startsWith(c)] on strings. *)
Definition includes (s c : string) : bool :=
  match String.index 0 c s with
  | Some _ => true
  | None => false
  end.
Definition startsWith (s c : string) : bool := String.prefix c s.

(** An integer square root, exact on perfect squares: a concrete stand-in
    for [Math.sqrt] where an example has to run a pinch. *)
Definition isqrt (q : Q) : Q := inject_Z (Z.sqrt (Qnum q / Zpos (Qden q))).

End JS.

(** ** The viewport: [ImagePreview] *)

Module ImagePreview.

Definition MIN_SCALE : Q := 1.
Definition MAX_SCALE : Q := 8.
Definition SCALE_STEP : Q := 0.5.

(** [{ x, y }], the [position] state cell. *)
Module Position.
Record t := mk { x : Q; y : Q }.
End Position.

(** [{ x, y, posX, posY }], the [startPosRef] cell. *)
Module StartPos.
Record t := mk { x : Q; y : Q; posX : Q; posY : Q }.
End StartPos.

(** One entry of [e.touches]. *)
Module Touch.
Record t := mk { clientX : Q; clientY : Q }.
End Touch.

(** The props the handlers read. *)
Record Props := mkProps {
  imageSrc : option string;
  isLoading : bool
}.

(** The component's state cells and refs. *)
Record State := mkState {
  scale : Q;
  position : Position.t;
  rotation : Z;
  isDragging : bool;
  startPosRef : StartPos.t;
  pinchDistRef : Q;
  pinchScaleRef : Q
}.

(** The values of [useState] / [useRef] at mount. *)
Definition initial : State :=
  {| scale := 1;
     position := Position.mk 0 0;
     rotation := 0%Z;
     isDragging := false;
     startPosRef := StartPos.mk 0 0 0 0;
     pinchDistRef := 0;
     pinchScaleRef := 1 |}.

Definition setScale (v : Q) (s : State) : State :=
  mkState v (position s) (rotation s) (isDragging s)
          (startPosRef s) (pinchDistRef s) (pinchScaleRef s).
Definition setPosition (v : Position.t) (s : State) : State :=
  mkState (scale s) v (rotation s) (isDragging s)
          (startPosRef s) (pinchDistRef s) (pinchScaleRef s).
Definition setRotation (f : Z -> Z) (s : State) : State :=
  mkState (scale s) (position s) (f (rotation s)) (isDragging s)
          (startPosRef s) (pinchDistRef s) (pinchScaleRef s).
Definition setIsDragging (v : bool) (s : State) : State :=
  mkState (scale s) (position s) (rotation s) v
          (startPosRef s) (pinchDistRef s) (pinchScaleRef s).
Definition setStartPosRef (v : StartPos.t) (s : State) : State :=
  mkState (scale s) (position s) (rotation s) (isDragging s)
          v (pinchDistRef s) (pinchScaleRef s).
Definition setPinchDistRef (v : Q) (s : State) : State :=
  mkState (scale s) (position s) (rotation s) (isDragging s)
          (startPosRef s) v (pinchScaleRef s).
Definition setPinchScaleRef (v : Q) (s : State) : State :=
  mkState (scale s) (position s) (rotation s) (isDragging s)
          (startPosRef s) (pinchDistRef s) v.

(** [!imageSrc || isLoading], the guard of the gesture handlers. *)
Definition blocked (p : Props) : bool :=
  negb (JS.truthy (imageSrc p)) || isLoading p.

Definition resetTransform (s : State) : State :=
  setRotation (fun _ => 0%Z)
    (setPosition (Position.mk 0 0)
      (setScale MIN_SCALE s)).

Definition handleWheel (p : Props) (deltaY : Q) (s : State) : State :=
  if blocked p then s
  else
    let delta := if JS.gtb deltaY 0 then - SCALE_STEP else SCALE_STEP in
    let newScale :=
      JS.Math_max MIN_SCALE (JS.Math_min MAX_SCALE (scale s + delta)) in
    if Qeq_bool newScale MIN_SCALE then resetTransform s
    else setScale newScale s.

Definition handleMouseDown (p : Props) (clientX clientY : Q) (s : State)
  : State :=
  if blocked p || Qle_bool (scale s) MIN_SCALE then s
  else
    setStartPosRef
      (StartPos.mk clientX clientY
         (Position.x (position s)) (Position.y (position s)))
      (setIsDragging true s).

Definition handleMouseMove (p : Props) (clientX clientY : Q) (s : State)
  : State :=
  if negb (isDragging s) || blocked p then s
  else
    let dx := clientX - StartPos.x (startPosRef s) in
    let dy := clientY - StartPos.y (startPosRef s) in
    setPosition
      (Position.mk (StartPos.posX (startPosRef s) + dx)
                   (StartPos.posY (startPosRef s) + dy)) s.

Definition handleMouseUpOrLeave (s : State) : State :=
  setIsDragging false s.

Definition zoomIn (s : State) : State :=
  let newScale := JS.Math_min MAX_SCALE (scale s + SCALE_STEP) in
  setScale newScale s.

Definition zoomOut (s : State) : State :=
  let newScale := JS.Math_max MIN_SCALE (scale s - SCALE_STEP) in
  if Qeq_bool newScale MIN_SCALE then resetTransform s
  else setScale newScale s.

Definition handleRotateClockwise (s : State) : State :=
  setRotation (fun prev => Z.rem (prev + 90) 360) s.

Definition handleRotateCounterClockwise (s : State) : State :=
  setRotation (fun prev => Z.rem (prev - 90 + 360) 360) s.

(** [e.touches[i]]; every use in the code is behind a test of
    [e.touches.length], so the default is never read. *)
Definition touch (touches : list Touch.t) (i : nat) : Touch.t :=
  nth i touches (Touch.mk 0 0).

Definition handleTouchEnd (touches : list Touch.t) (s : State) : State :=
  let s1 := setPinchDistRef 0 (setIsDragging false s) in
  if Nat.eqb (List.length touches) 1 then
    setStartPosRef
      (StartPos.mk (Touch.clientX (touch touches 0))
                   (Touch.clientY (touch touches 0))
                   (Position.x (position s)) (Position.y (position s)))
      (setIsDragging true s1)
  else s1.

(** The transform the image is rendered with. *)
Record Transform := mkTransform {
  t_scale : Q;
  t_translation : Position.t;
  t_rotation : Z
}.

Definition transform (s : State) : Transform :=
  mkTransform (scale s) (position s) (rotation s).

Definition identity : Transform :=
  mkTransform MIN_SCALE (Position.mk 0 0) 0%Z.

(** The events of the component: the host's pointer, wheel and touch
    events, the five control buttons, and the effect that runs when the
    [imageSrc] prop changes. *)
Inductive Event :=
| Wheel (deltaY : Q)
| MouseDown (clientX clientY : Q)
| MouseMove (clientX clientY : Q)
| MouseUp
| MouseLeave
| TouchStart (touches : list Touch.t)
| TouchMove (touches : list Touch.t)
| TouchEnd (touches : list Touch.t)
| ClickZoomIn
| ClickZoomOut
| ClickReset
| ClickRotateClockwise
| ClickRotateCounterClockwise
| ImageSrcChanged.

Section Host.

(** [Math.sqrt], supplied by the host. *)
Variable Math_sqrt : Q -> Q.

Definition getDist (touches : list Touch.t) : Q :=
  let dx := Touch.clientX (touch touches 0)
            - Touch.clientX (touch touches 1) in
  let dy := Touch.clientY (touch touches 0)
            - Touch.clientY (touch touches 1) in
  Math_sqrt (dx * dx + dy * dy).

Definition handleTouchStart (p : Props) (touches : list Touch.t)
  (s : State) : State :=
  if blocked p then s
  else if Nat.eqb (List.length touches) 1 && JS.gtb (scale s) MIN_SCALE then
    setStartPosRef
      (StartPos.mk (Touch.clientX (touch touches 0))
                   (Touch.clientY (touch touches 0))
                   (Position.x (position s)) (Position.y (position s)))
      (setIsDragging true s)
  else if Nat.eqb (List.length touches) 2 then
    setIsDragging false
      (setPinchScaleRef (scale s)
        (setPinchDistRef (getDist touches) s))
  else s.

Definition handleTouchMove (p : Props) (touches : list Touch.t)
  (s : State) : State :=
  if blocked p then s
  else if Nat.eqb (List.length touches) 1 && isDragging s then
    let dx := Touch.clientX (touch touches 0) - StartPos.x (startPosRef s) in
    let dy := Touch.clientY (touch touches 0) - StartPos.y (startPosRef s) in
    setPosition
      (Position.mk (StartPos.posX (startPosRef s) + dx)
                   (StartPos.posY (startPosRef s) + dy)) s
  else if Nat.eqb (List.length touches) 2 && JS.gtb (pinchDistRef s) 0 then
    let newDist := getDist touches in
    let scaleChange := newDist / pinchDistRef s in
    let newScale :=
      JS.Math_max MIN_SCALE
        (JS.Math_min MAX_SCALE (pinchScaleRef s * scaleChange)) in
    if Qeq_bool newScale MIN_SCALE then resetTransform s
    else setScale newScale s
  else s.

(** One event, handled under the props of the render it arrives in. *)
Definition dispatch (p : Props) (e : Event) (s : State) : State :=
  match e with
  | Wheel deltaY => handleWheel p deltaY s
  | MouseDown cx cy => handleMouseDown p cx cy s
  | MouseMove cx cy => handleMouseMove p cx cy s
  | MouseUp | MouseLeave => handleMouseUpOrLeave s
  | TouchStart ts => handleTouchStart p ts s
  | TouchMove ts => handleTouchMove p ts s
  | TouchEnd ts => handleTouchEnd ts s
  | ClickZoomIn => zoomIn s
  | ClickZoomOut => zoomOut s
  | ClickReset => resetTransform s
  | ClickRotateClockwise => handleRotateClockwise s
  | ClickRotateCounterClockwise => handleRotateCounterClockwise s
  | ImageSrcChanged => resetTransform s
  end.

(** A session: events in arrival order, each with the current props. *)
Definition run (tr : list (Props * Event)) (s : State) : State :=
  fold_left (fun acc pe => dispatch (fst pe) (snd pe) acc) tr s.

End Host.

(** *** Predicates on viewport states *)

(** The invariant of the transform: the scale is within its bounds and the
    rotation is a quarter turn. *)
Definition scale_ok (s : State) : Prop :=
  MIN_SCALE <= scale s /\ scale s <= MAX_SCALE.

Definition rotation_ok (s : State) : Prop :=
  In (rotation s) [0; 90; 180; 270]%Z.

(** [Math.max(MIN_SCALE, Math.min(MAX_SCALE, v))], the clamp of the wheel and
    pinch paths. *)
Definition clampScale (v : Q) : Q :=
  JS.Math_max MIN_SCALE (JS.Math_min MAX_SCALE v).

(** The outcome of a zoom step whose clamped scale is [newScale]: the whole
    transform snaps to the identity when [newScale] is [MIN_SCALE], and only
    the scale changes otherwise. *)
Definition snaps_or_scales (newScale : Q) (s s' : State) : Prop :=
  (newScale == MIN_SCALE -> transform s' = identity) /\
  (~ newScale == MIN_SCALE ->
   scale s' = newScale /\ position s' = position s /\ rotation s' = rotation s).

End ImagePreview.


(** ** The crop rectangle: [ImageCropper] *)

Module ImageCropper.

(** [interface Rect], display pixels relative to the container. *)
Module Rect.
Record t := mk { x : Q; y : Q; width : Q; height : Q }.
Definition set_x (v : Q) (r : t) : t := mk v (y r) (width r) (height r).
Definition set_y (v : Q) (r : t) : t := mk (x r) v (width r) (height r).
Definition set_width (v : Q) (r : t) : t := mk (x r) (y r) v (height r).
Definition set_height (v : Q) (r : t) : t := mk (x r) (y r) (width r) v.
End Rect.

(** The [imageSize] state cell: the fitted (letterboxed) image box. *)
Module ImageSize.
Record t := mk { width : Q; height : Q; left : Q; top : Q }.
End ImageSize.

(** [{ x, y }], the [lastMousePos] ref. *)
Module MousePos.
Record t := mk { x : Q; y : Q }.
End MousePos.

(** [type DragHandle], with the string literal each value is. *)
Inductive DragHandle :=
| Hn | Hs | He | Hw | Hne | Hnw | Hse | Hsw | Hmove.

Definition literal (h : DragHandle) : string :=
  match h with
  | Hn => "n" | Hs => "s" | He => "e" | Hw => "w"
  | Hne => "ne" | Hnw => "nw" | Hse => "se" | Hsw => "sw"
  | Hmove => "move"
  end.

(** [type?.includes(c)], [type?.startsWith(c)] and [type === lit] for a
    [DragHandle | null]; on [null] the optional call is [undefined], which
    is falsy. *)
Definition type_includes (type : option DragHandle) (c : string) : bool :=
  match type with
  | Some h => JS.includes (literal h) c
  | None => false
  end.
Definition type_startsWith (type : option DragHandle) (c : string) : bool :=
  match type with
  | Some h => JS.startsWith (literal h) c
  | None => false
  end.
Definition type_is (type : option DragHandle) (lit : string) : bool :=
  match type with
  | Some h => String.eqb (literal h) lit
  | None => false
  end.

(** The [dragInfo] ref. *)
Record DragInfo := mkDragInfo {
  active : bool;
  type : option DragHandle
}.

(** The props the handlers read. *)
Record Props := mkProps {
  aspectRatioValue : Q
}.

(** The component's state cells and refs. *)
Record State := mkState {
  imageSize : ImageSize.t;
  crop : Rect.t;
  lastMousePos : MousePos.t;
  dragInfo : DragInfo
}.

(** The values of [useState] / [useRef] at mount. *)
Definition initial : State :=
  {| imageSize := ImageSize.mk 0 0 0 0;
     crop := Rect.mk 0 0 0 0;
     lastMousePos := MousePos.mk 0 0;
     dragInfo := mkDragInfo false None |}.

Definition setImageSize (v : ImageSize.t) (s : State) : State :=
  mkState v (crop s) (lastMousePos s) (dragInfo s).
Definition setCrop (f : Rect.t -> Rect.t) (s : State) : State :=
  mkState (imageSize s) (f (crop s)) (lastMousePos s) (dragInfo s).
Definition setLastMousePos (v : MousePos.t) (s : State) : State :=
  mkState (imageSize s) (crop s) v (dragInfo s).
Definition setDragInfo (v : DragInfo) (s : State) : State :=
  mkState (imageSize s) (crop s) (lastMousePos s) v.

Definition initCrop (p : Props) (s : State) : State :=
  let imgWidth := ImageSize.width (imageSize s) in
  let imgHeight := ImageSize.height (imageSize s) in
  if negb (JS.truthy_num imgWidth) || negb (JS.truthy_num imgHeight) then s
  else
    let imgRatio := imgWidth / imgHeight in
    let '(newWidth, newHeight) :=
      if JS.gtb (aspectRatioValue p) imgRatio then
        let newWidth := imgWidth * 0.8 in
        let newHeight := newWidth / aspectRatioValue p in
        (newWidth, newHeight)
      else
        let newHeight := imgHeight * 0.8 in
        let newWidth := newHeight * aspectRatioValue p in
        (newWidth, newHeight) in
    let newX := ImageSize.left (imageSize s) + (imgWidth - newWidth) / 2 in
    let newY := ImageSize.top (imageSize s) + (imgHeight - newHeight) / 2 in
    setCrop (fun _ => Rect.mk newX newY newWidth newHeight) s.

(** What the handlers read of [containerRef.current] and [imageRef.current]
    ([None] for a [null] ref).  [onImageLoad] divides by the container's
    height, by the image's natural height and by the image's ratio: its
    model is the code's for a container and an image of positive
    dimensions. *)
Record Container := mkContainer { clientWidth : Q; clientHeight : Q }.
Record Image := mkImage { naturalWidth : Q; naturalHeight : Q }.

Definition onImageLoad (container : option Container) (img : option Image)
  (s : State) : State :=
  match container, img with
  | Some container, Some img =>
      let containerRatio := clientWidth container / clientHeight container in
      let imgRatio := naturalWidth img / naturalHeight img in
      if JS.gtb imgRatio containerRatio then
        let width := clientWidth container in
        let height := width / imgRatio in
        let left := 0 in
        let top := (clientHeight container - height) / 2 in
        setImageSize (ImageSize.mk width height left top) s
      else
        let height := clientHeight container in
        let width := height * imgRatio in
        let top := 0 in
        let left := (clientWidth container - width) / 2 in
        setImageSize (ImageSize.mk width height left top) s
  | _, _ => s
  end.

Definition handleMouseDown (clientX clientY : Q) (type : DragHandle)
  (s : State) : State :=
  setLastMousePos (MousePos.mk clientX clientY)
    (setDragInfo (mkDragInfo true (Some type)) s).

(** The candidate rectangle of one move event, before the clamp: the edge
    deltas, the aspect ratio, the anchored corners and the [move] shift. *)
Definition resize (aspectRatioValue : Q) (type : option DragHandle)
  (dx dy : Q) (prevCrop : Rect.t) : Rect.t :=
  let newCrop := prevCrop in
  let newCrop :=
    if type_includes type "e"
    then Rect.set_width (Rect.width newCrop + dx) newCrop else newCrop in
  let newCrop :=
    if type_includes type "w"
    then Rect.set_width (Rect.width newCrop - dx)
           (Rect.set_x (Rect.x newCrop + dx) newCrop)
    else newCrop in
  let newCrop :=
    if type_includes type "s"
    then Rect.set_height (Rect.height newCrop + dy) newCrop else newCrop in
  let newCrop :=
    if type_includes type "n"
    then Rect.set_height (Rect.height newCrop - dy)
           (Rect.set_y (Rect.y newCrop + dy) newCrop)
    else newCrop in
  let newCrop :=
    if type_startsWith type "n" || type_startsWith type "s"
    then Rect.set_width (Rect.height newCrop * aspectRatioValue) newCrop
    else Rect.set_height (Rect.width newCrop / aspectRatioValue) newCrop in
  let newCrop :=
    if type_is type "nw"
    then Rect.set_y
           (Rect.y prevCrop + Rect.height prevCrop - Rect.height newCrop)
           (Rect.set_x
              (Rect.x prevCrop + Rect.width prevCrop - Rect.width newCrop)
              newCrop)
    else newCrop in
  let newCrop :=
    if type_is type "ne"
    then Rect.set_y
           (Rect.y prevCrop + Rect.height prevCrop - Rect.height newCrop)
           newCrop
    else newCrop in
  let newCrop :=
    if type_is type "sw"
    then Rect.set_x
           (Rect.x prevCrop + Rect.width prevCrop - Rect.width newCrop)
           newCrop
    else newCrop in
  let newCrop :=
    if type_is type "move"
    then Rect.set_y (Rect.y newCrop + dy)
           (Rect.set_x (Rect.x newCrop + dx) newCrop)
    else newCrop in
  newCrop.

(** "Clamp to image boundaries". *)
Definition clamp (aspectRatioValue : Q) (imageSize : ImageSize.t)
  (newCrop : Rect.t) : Rect.t :=
  let newCrop :=
    Rect.set_x (JS.Math_max (ImageSize.left imageSize) (Rect.x newCrop))
      newCrop in
  let newCrop :=
    Rect.set_y (JS.Math_max (ImageSize.top imageSize) (Rect.y newCrop))
      newCrop in
  let newCrop :=
    if JS.gtb (Rect.x newCrop + Rect.width newCrop)
              (ImageSize.left imageSize + ImageSize.width imageSize)
    then
      let newCrop :=
        Rect.set_width
          (ImageSize.left imageSize + ImageSize.width imageSize
           - Rect.x newCrop) newCrop in
      Rect.set_height (Rect.width newCrop / aspectRatioValue) newCrop
    else newCrop in
  let newCrop :=
    if JS.gtb (Rect.y newCrop + Rect.height newCrop)
              (ImageSize.top imageSize + ImageSize.height imageSize)
    then
      let newCrop :=
        Rect.set_height
          (ImageSize.top imageSize + ImageSize.height imageSize
           - Rect.y newCrop) newCrop in
      Rect.set_width (Rect.height newCrop * aspectRatioValue) newCrop
    else newCrop in
  newCrop.

(** The updater passed to [setCrop] by [handleMouseMove]. *)
Definition updateCrop (aspectRatioValue : Q) (imageSize : ImageSize.t)
  (type : option DragHandle) (dx dy : Q) (prevCrop : Rect.t) : Rect.t :=
  let newCrop :=
    clamp aspectRatioValue imageSize
      (resize aspectRatioValue type dx dy prevCrop) in
  if JS.ltb (Rect.width newCrop) 20 || JS.ltb (Rect.height newCrop) 20
  then prevCrop
  else newCrop.

Definition handleMouseMove (p : Props) (clientX clientY : Q) (s : State)
  : State :=
  if negb (active (dragInfo s)) then s
  else
    let dx := clientX - MousePos.x (lastMousePos s) in
    let dy := clientY - MousePos.y (lastMousePos s) in
    let s := setLastMousePos (MousePos.mk clientX clientY) s in
    setCrop
      (updateCrop (aspectRatioValue p) (imageSize s) (type (dragInfo s)) dx dy)
      s.

Definition handleMouseUp (s : State) : State :=
  setDragInfo (mkDragInfo false None) s.

(** The host's canvas.  [canvas.width] and [canvas.height] are
    [unsigned long] attributes of the element: a number assigned to one is
    converted as Web IDL prescribes (its integer part, modulo 2^32), and the
    attribute keeps a value up to 2147483647 and takes its default (300 for
    the width, 150 for the height) for a larger one. *)
Definition ToUint32 (v : Q) : Z :=
  Z.modulo (Z.quot (Qnum v) (Zpos (Qden v))) (2 ^ 32).

Definition canvasDimension (default : Z) (v : Q) : Z :=
  let n := ToUint32 v in
  if Z.leb n 2147483647 then n else default.

(** The canvas [handleSave] creates and the [drawImage] call it issues on
    it; the destination size is read back from the canvas. *)
Record Canvas := mkCanvas { canvas_width : Z; canvas_height : Z }.
Record DrawImage := mkDrawImage {
  sx : Q; sy : Q; sWidth : Q; sHeight : Q;
  dx : Q; dy : Q; dWidth : Q; dHeight : Q
}.
Record Export := mkExport { canvas : Canvas; drawImage : DrawImage }.

(** [None] when the handler returns before [onSave]; [hasContext] tells
    whether [canvas.getContext('2d')] is non-null.  The scale factors divide
    by the sides of the fitted box, which are not zero once the image is
    laid out. *)
Definition handleSave (img : option Image) (hasContext : bool) (s : State)
  : option Export :=
  match img with
  | None => None
  | Some img =>
      let scaleX := naturalWidth img / ImageSize.width (imageSize s) in
      let scaleY := naturalHeight img / ImageSize.height (imageSize s) in
      let canvas :=
        mkCanvas
          (canvasDimension 300
             ((Rect.width (crop s)
               - (if type_is (type (dragInfo s)) "w"
                     || type_is (type (dragInfo s)) "e"
                  then 2 else 0)) * scaleX))
          (canvasDimension 150
             ((Rect.height (crop s)
               - (if type_is (type (dragInfo s)) "n"
                     || type_is (type (dragInfo s)) "s"
                  then 2 else 0)) * scaleY)) in
      if negb hasContext then None
      else
        Some (mkExport canvas
                (mkDrawImage
                   ((Rect.x (crop s) - ImageSize.left (imageSize s)) * scaleX)
                   ((Rect.y (crop s) - ImageSize.top (imageSize s)) * scaleY)
                   (Rect.width (crop s) * scaleX)
                   (Rect.height (crop s) * scaleY)
                   0 0
                   (inject_Z (canvas_width canvas))
                   (inject_Z (canvas_height canvas))))
  end.

(** The events of a crop session once the image is laid out. *)
Inductive Event :=
| MouseDown (clientX clientY : Q) (type : DragHandle)
| MouseMove (clientX clientY : Q)
| MouseUp.

Definition dispatch (p : Props) (ev : Event) (s : State) : State :=
  match ev with
  | MouseDown cx cy ty => handleMouseDown cx cy ty s
  | MouseMove cx cy => handleMouseMove p cx cy s
  | MouseUp => handleMouseUp s
  end.

Definition run (p : Props) (evs : list Event) (s : State) : State :=
  fold_left (fun acc ev => dispatch p ev acc) evs s.

(** The state after the image has loaded into [container]: [onImageLoad]
    sets [imageSize], and the effect on [initCrop] then sets the crop. *)
Definition loaded (p : Props) (container : option Container)
  (img : option Image) : State :=
  initCrop p (onImageLoad container img initial).

(** The state once [imageSize] holds the fitted box [box]. *)
Definition fitted (p : Props) (box : ImageSize.t) : State :=
  initCrop p (setImageSize box initial).

(** *** Predicates on crop rectangles and sessions *)

(** The three invariants of a crop rectangle. *)
Definition aspect_locked (a : Q) (r : Rect.t) : Prop :=
  Rect.width r == Rect.height r * a.

Definition within (box : ImageSize.t) (r : Rect.t) : Prop :=
  ImageSize.left box <= Rect.x r /\
  ImageSize.top box <= Rect.y r /\
  Rect.x r + Rect.width r <= ImageSize.left box + ImageSize.width box /\
  Rect.y r + Rect.height r <= ImageSize.top box + ImageSize.height box.

Definition min_size (r : Rect.t) : Prop :=
  20 <= Rect.width r /\ 20 <= Rect.height r.

(** Field-wise equality of rectangles and boxes as numbers. *)
Definition rect_eq (r r' : Rect.t) : Prop :=
  Rect.x r == Rect.x r' /\ Rect.y r == Rect.y r' /\
  Rect.width r == Rect.width r' /\ Rect.height r == Rect.height r'.

Definition box_eq (b b' : ImageSize.t) : Prop :=
  ImageSize.width b == ImageSize.width b' /\
  ImageSize.height b == ImageSize.height b' /\
  ImageSize.left b == ImageSize.left b' /\
  ImageSize.top b == ImageSize.top b'.

(** A segment [lo', lo' + len'] has equal margins inside [lo, lo + len]. *)
Definition centered (lo len lo' len' : Q) : Prop :=
  lo' - lo == (lo + len) - (lo' + len').

(** The invariant of a crop session over the fitted box [box]. *)
Record session_inv (p : Props) (box : ImageSize.t) (s : State) : Prop := {
  inv_box : imageSize s = box;
  inv_aspect : aspect_locked (aspectRatioValue p) (crop s);
  inv_within : within box (crop s);
  inv_height : 0 < Rect.height (crop s)
}.

End ImageCropper.

(** ** The viewport's controls: what [ImagePreview] renders from its state *)

Module ImagePreviewControls.
Import ImagePreview.

(** [cursorStyle], the cursor shown over the image. *)
Definition cursorStyle (s : State) : string :=
  if JS.gtb (scale s) 1
  then (if isDragging s then "grabbing" else "grab")
  else "default".

(** [imageSrc && !isLoading], the condition under which the control bar is
    rendered. *)
Definition controlsShown (p : Props) : bool :=
  JS.truthy (imageSrc p) && negb (isLoading p).

(** The [disabled] attributes of the zoom-out, reset and zoom-in buttons. *)
Definition zoomOutDisabled (s : State) : bool :=
  Qle_bool (scale s) MIN_SCALE.

Definition resetDisabled (s : State) : bool :=
  Qle_bool (scale s) MIN_SCALE
  && Qeq_bool (Position.x (position s)) 0
  && Qeq_bool (Position.y (position s)) 0
  && Z.eqb (rotation s) 0.

Definition zoomInDisabled (s : State) : bool :=
  Qle_bool MAX_SCALE (scale s).

(** The events that come from the pointer, the wheel or the touch surface,
    and among them those of the mouse. *)
Definition is_gesture (e : Event) : bool :=
  match e with
  | Wheel _ | MouseDown _ _ | MouseMove _ _ | MouseUp | MouseLeave
  | TouchStart _ | TouchMove _ | TouchEnd _ => true
  | _ => false
  end.

Definition is_mouse (e : Event) : bool :=
  match e with
  | MouseDown _ _ | MouseMove _ _ | MouseUp | MouseLeave => true
  | _ => false
  end.

(** Traces of a gesture: a list of pointer positions as mouse moves, and a
    list of contact lists as touch moves, all under the props [p]. *)
Definition mouseMoves (p : Props) (pts : list (Q * Q))
  : list (Props * Event) :=
  map (fun pt => (p, MouseMove (fst pt) (snd pt))) pts.

Definition touchMoves (p : Props) (ms : list (list Touch.t))
  : list (Props * Event) :=
  map (fun m => (p, TouchMove m)) ms.

End ImagePreviewControls.

(** ** The cropper as the application opens it *)

Module CropperHost.
Import ImageCropper.

(** [Settings.aspectRatio], with the string literal each value is. *)
Inductive AspectRatio := Ratio_1_1 | Ratio_4_3 | Ratio_16_9.

Definition ratio_literal (r : AspectRatio) : string :=
  match r with
  | Ratio_1_1 => "1:1"
  | Ratio_4_3 => "4:3"
  | Ratio_16_9 => "16:9"
  end.

(** The [aspectRatioValue] prop that [App] passes to [ImageCropper]. *)
Definition aspectRatioValue_of (aspectRatio : AspectRatio) : Q :=
  if String.eqb (ratio_literal aspectRatio) "1:1" then 1
  else if String.eqb (ratio_literal aspectRatio) "4:3" then 4 / 3
  else 16 / 9.

Definition cropperProps (aspectRatio : AspectRatio) : Props :=
  mkProps (aspectRatioValue_of aspectRatio).

(** The events that start a drag. *)
Definition is_press (ev : Event) : bool :=
  match ev with
  | MouseDown _ _ _ => true
  | _ => false
  end.

End CropperHost.

(** ** Undo and redo of the settings: [useHistoryState] *)

Module HistoryState.

Section Hook.

(** The type of the tracked state, and [JSON.stringify] on it. *)
Variable T : Type.
Variable JSON_stringify : T -> string.

(** The argument of [setState]: a value, or a function of the previous
    state. *)
Inductive SetStateArg :=
| Value (newState : T)
| Updater (f : T -> T).

(** The hook's state cells ([history], [index]) and its ref at a render.
    The functions [setState], [undo] and [redo] below take the cells at one
    render to the cells at the next one, for a single call made from that
    render; several calls from one render are the matter of [render]
    further down. *)
Record State := mkState {
  history : list T;
  index : nat;
  lastCommittedState : T
}.

Definition init (initialState : T) : State :=
  mkState [initialState] 0 initialState.

(** [history[index]]; [None] is JavaScript's [undefined]. *)
Definition state (s : State) : option T := nth_error (history s) (index s).

Definition setState (newState : SetStateArg) (s : State) : State :=
  let resolvedState :=
    match newState with
    | Updater f => f (lastCommittedState s)
    | Value v => v
    end in
  if String.eqb (JSON_stringify resolvedState)
                (JSON_stringify (lastCommittedState s))
  then s
  else
    let newHistory := firstn (index s + 1) (history s) ++ [resolvedState] in
    mkState newHistory (List.length newHistory - 1) resolvedState.

(** [undo] and [redo] store [history[newIndex]] in the ref; the result is
    [None] if that read is out of range (the ref would hold [undefined]). *)
Definition undo (s : State) : option State :=
  if Nat.ltb 0 (index s) then
    let newIndex := (index s - 1)%nat in
    match nth_error (history s) newIndex with
    | Some v => Some (mkState (history s) newIndex v)
    | None => None
    end
  else Some s.

Definition redo (s : State) : option State :=
  if Z.ltb (Z.of_nat (index s)) (Z.of_nat (List.length (history s)) - 1) then
    let newIndex := (index s + 1)%nat in
    match nth_error (history s) newIndex with
    | Some v => Some (mkState (history s) newIndex v)
    | None => None
    end
  else Some s.

Definition canUndo (s : State) : bool := Nat.ltb 0 (index s).

Definition canRedo (s : State) : bool :=
  Z.ltb (Z.of_nat (index s)) (Z.of_nat (List.length (history s)) - 1).

(** The calls a component can make on the hook. *)
Inductive Call :=
| SetState (newState : SetStateArg)
| Undo
| Redo.

(** One call made from the render of [s], and the render that follows. *)
Definition call (c : Call) (s : State) : option State :=
  match c with
  | SetState a => Some (setState a s)
  | Undo => undo s
  | Redo => redo s
  end.

(** *** Calls made from one render

    [setState], [undo] and [redo] above give the hook's cells at the render
    that follows one call made from the render of [s].  A component can also
    make several calls before React renders again.  They all run with the
    closures of the same render, which hold that render's [history] and
    [index]; the values passed to [setHistory] and [setIndex] and the
    updaters passed to [setIndex] are queued, and an updater receives the
    index the queue has reached, not the render's. *)

(** The cells at a render.  The index is an integer, which the updater of
    [undo] can take below 0, and the ref can hold [undefined] ([None]). *)
Record Cells := mkCells {
  c_history : list T;
  c_index : Z;
  c_lastCommittedState : option T
}.

(** The first render. *)
Definition mount (initialState : T) : Cells :=
  mkCells [initialState] 0 (Some initialState).

(** The cells of a render whose index is a position and whose ref holds a
    value. *)
Definition cells (s : State) : Cells :=
  mkCells (history s) (Z.of_nat (index s)) (Some (lastCommittedState s)).

(** [history[i]]. *)
Definition item (h : list T) (i : Z) : option T :=
  if Z.ltb i 0 then None else nth_error h (Z.to_nat i).

(** [history.slice(0, stop)]; a negative [stop] counts from the end. *)
Definition slice0 (h : list T) (stop : Z) : list T :=
  firstn
    (Z.to_nat (if Z.ltb stop 0 then Z.of_nat (List.length h) + stop else stop))
    h.

(** What the hook returns at a render. *)
Definition c_state (r : Cells) : option T := item (c_history r) (c_index r).
Definition c_canUndo (r : Cells) : bool := Z.ltb 0 (c_index r).
Definition c_canRedo (r : Cells) : bool :=
  Z.ltb (c_index r) (Z.of_nat (List.length (c_history r)) - 1).

(** An update queued on the [index] cell: the value [setState] passes, or
    the updater of [undo] ([d] = -1) and [redo] ([d] = 1), which stores
    [history[newIndex]] in the ref when it runs. *)
Inductive IndexUpdate :=
| NewIndex (newIndex : Z)
| PrevIndex (d : Z).

(** Between two renders: the last value passed to [setHistory], the queue of
    the [index] cell, and the ref. *)
Record Pending := mkPending {
  p_history : option (list T);
  p_index : list IndexUpdate;
  p_lastCommittedState : option T
}.

Definition idle (q : Pending) : bool :=
  match p_history q, p_index q with
  | None, [] => true
  | _, _ => false
  end.

(** [setIndex(prevIndex => ...)] from the render [r].  React runs an updater
    when it next renders; it may run the first update queued since the last
    render at once, on the rendered index, which [eager] tells. *)
Definition queueUpdater (eager : bool) (r : Cells) (d : Z) (q : Pending)
  : Pending :=
  if eager && idle q then
    let newIndex := (c_index r + d)%Z in
    mkPending (p_history q) [NewIndex newIndex] (item (c_history r) newIndex)
  else
    mkPending (p_history q) (p_index q ++ [PrevIndex d])
      (p_lastCommittedState q).

(** One call with the closures of the render [r].  [None]: [newState] is a
    function and would be called on [undefined], of which [T -> T] says
    nothing.  [JSON.stringify(undefined)] is [undefined], no string. *)
Definition callIn (eager : bool) (r : Cells) (c : Call) (q : Pending)
  : option Pending :=
  match c with
  | SetState newState =>
      let resolved :=
        match newState with
        | Updater f => option_map f (p_lastCommittedState q)
        | Value v => Some v
        end in
      match resolved with
      | None => None
      | Some resolvedState =>
          let same :=
            match p_lastCommittedState q with
            | Some l =>
                String.eqb (JSON_stringify resolvedState) (JSON_stringify l)
            | None => false
            end in
          if same then Some q
          else
            let newHistory :=
              slice0 (c_history r) (c_index r + 1) ++ [resolvedState] in
            Some (mkPending (Some newHistory)
                    (p_index q
                     ++ [NewIndex (Z.of_nat (List.length newHistory) - 1)])
                    (Some resolvedState))
      end
  | Undo =>
      Some (if Z.ltb 0 (c_index r) then queueUpdater eager r (-1) q else q)
  | Redo =>
      Some (if Z.ltb (c_index r) (Z.of_nat (List.length (c_history r)) - 1)
            then queueUpdater eager r 1 q else q)
  end.

Fixpoint callsIn (eager : bool) (r : Cells) (cs : list Call) (q : Pending)
  : option Pending :=
  match cs with
  | [] => Some q
  | c :: cs' =>
      match callIn eager r c q with
      | Some q' => callsIn eager r cs' q'
      | None => None
      end
  end.

(** React works through the queue of the [index] cell at the next render. *)
Definition applyIndexUpdate (r : Cells) (st : Z * option T)
  (u : IndexUpdate) : Z * option T :=
  match u with
  | NewIndex newIndex => (newIndex, snd st)
  | PrevIndex d =>
      let newIndex := (fst st + d)%Z in
      (newIndex, item (c_history r) newIndex)
  end.

Definition rerender (r : Cells) (q : Pending) : Cells :=
  let st :=
    fold_left (applyIndexUpdate r) (p_index q)
      (c_index r, p_lastCommittedState q) in
  mkCells
    (match p_history q with Some h => h | None => c_history r end)
    (fst st) (snd st).

(** The calls [cs] made from the render [r], and the render that follows. *)
Definition render (eager : bool) (cs : list Call) (r : Cells)
  : option Cells :=
  match callsIn eager r cs (mkPending None [] (c_lastCommittedState r)) with
  | Some q => Some (rerender r q)
  | None => None
  end.

(** A series of renders, each with the calls made from it. *)
Fixpoint renders (rs : list (bool * list Call)) (r : Cells) : option Cells :=
  match rs with
  | [] => Some r
  | (eager, cs) :: rs' =>
      match render eager cs r with
      | Some r' => renders rs' r'
      | None => None
      end
  end.

(** The index points into the history, at the last committed state. *)
Definition well_formed (s : State) : Prop :=
  (index s < List.length (history s))%nat /\
  nth_error (history s) (index s) = Some (lastCommittedState s).

End Hook.

Arguments Value {T} _.
Arguments Updater {T} _.
Arguments mkState {T} _ _ _.
Arguments history {T} _.
Arguments index {T} _.
Arguments lastCommittedState {T} _.
Arguments init {T} _.
Arguments state {T} _.
Arguments undo {T} _.
Arguments redo {T} _.
Arguments canUndo {T} _.
Arguments canRedo {T} _.
Arguments SetState {T} _.
Arguments Undo {T}.
Arguments Redo {T}.
Arguments mkCells {T} _ _ _.
Arguments c_history {T} _.
Arguments c_index {T} _.
Arguments c_lastCommittedState {T} _.
Arguments mount {T} _.
Arguments cells {T} _.
Arguments item {T} _ _.
Arguments c_state {T} _.
Arguments c_canUndo {T} _.
Arguments c_canRedo {T} _.
Arguments well_formed {T} _.

End HistoryState.

(** ** The application: presets and the generation history ([App]) *)

Module App.

Inductive Mode := figurine | boxArt.
Inductive FigurineScale :=
| scale_1_12 | scale_1_10 | scale_1_8 | scale_1_7 | scale_1_6 | scale_1_4.
Inductive EnhancementLevel := Standard | High | Ultra.

(** [type Preset]. *)
Module Preset.
Record t := mk {
  name : string;
  mode : Mode;
  prompt : string;
  artStyle : string;
  environment : string;
  pose : string;
  lighting : string;
  modifier : string;
  aspectRatio : CropperHost.AspectRatio;
  scale : FigurineScale;
  enhancementLevel : EnhancementLevel
}.
End Preset.

(** [type Settings]. *)
Module Settings.
Record t := mk {
  mode : Mode;
  prompt : string;
  environment : string;
  pose : string;
  lighting : string;
  negativePrompt : string;
  artStyle : string;
  modifier : string;
  aspectRatio : CropperHost.AspectRatio;
  scale : FigurineScale;
  enhancementLevel : EnhancementLevel
}.
End Settings.

(** [arr.findIndex(pred)]; [None] is the result [-1]. *)
Fixpoint findIndex {A : Type} (pred : A -> bool) (arr : list A) : option nat :=
  match arr with
  | [] => None
  | x :: rest =>
      if pred x then Some 0%nat
      else match findIndex pred rest with
           | Some i => Some (S i)
           | None => None
           end
  end.

(** [arr[i] = v] on a copy of [arr], for an index within range. *)
Fixpoint assign {A : Type} (i : nat) (v : A) (arr : list A) : list A :=
  match arr, i with
  | [], _ => []
  | _ :: rest, O => v :: rest
  | x :: rest, S i' => x :: assign i' v rest
  end.

Section Host.

(** [String.prototype.trim]. *)
Variable trim : string -> string.

(** [handleSavePreset]: the new values of [presets] and [presetName]. *)
Definition handleSavePreset (presetName : string) (settings : Settings.t)
  (prevPresets : list Preset.t) : list Preset.t * string :=
  if String.eqb (trim presetName) EmptyString then (prevPresets, presetName)
  else
    let newPreset :=
      Preset.mk (trim presetName) (Settings.mode settings)
        (Settings.prompt settings) (Settings.artStyle settings)
        (Settings.environment settings) (Settings.pose settings)
        (Settings.lighting settings) (Settings.modifier settings)
        (Settings.aspectRatio settings) (Settings.scale settings)
        (Settings.enhancementLevel settings) in
    (match findIndex
             (fun p => String.eqb (Preset.name p) (Preset.name newPreset))
             prevPresets with
     | Some existingIndex => assign existingIndex newPreset prevPresets
     | None => prevPresets ++ [newPreset]
     end,
     EmptyString).

End Host.

(** The updater that [handleLoadPreset] passes to [setSettings]. *)
Definition handleLoadPreset (preset : Preset.t) (s : Settings.t)
  : Settings.t :=
  Settings.mk (Preset.mode preset) (Preset.prompt preset)
    (Preset.environment preset) (Preset.pose preset)
    (Preset.lighting preset) (Settings.negativePrompt s)
    (Preset.artStyle preset) (Preset.modifier preset)
    (Preset.aspectRatio preset) (Preset.scale preset)
    (Preset.enhancementLevel preset).

(** [handleDeletePreset]; [confirmed] is the answer of [window.confirm]. *)
Definition handleDeletePreset (confirmed : bool) (name : string)
  (prevPresets : list Preset.t) : list Preset.t :=
  if confirmed
  then filter (fun p => negb (String.eqb (Preset.name p) name)) prevPresets
  else prevPresets.

(** The updater [prev => [imageUrl, ...prev].slice(0, 10)] that records a
    generated or edited image. *)
Definition recordImage (imageUrl : string) (prev : list string)
  : list string :=
  firstn 10 (imageUrl :: prev).

(** The updater of [handleDeleteFromHistory]. *)
Definition handleDeleteFromHistory (imageSrc : string) (prev : list string)
  : list string :=
  filter (fun img => negb (String.eqb img imageSrc)) prev.

(** Changes of the generation history. *)
Inductive HistoryChange :=
| Record_ (imageUrl : string)
| Delete (imageSrc : string).

Definition changeHistory (c : HistoryChange) (prev : list string)
  : list string :=
  match c with
  | Record_ imageUrl => recordImage imageUrl prev
  | Delete imageSrc => handleDeleteFromHistory imageSrc prev
  end.

End App.

(** ** Upload validation: [ImageUploader] *)

Module ImageUploader.

Definition MAX_FILE_SIZE_MB : Z := 10.
Definition MAX_FILE_SIZE : Z := MAX_FILE_SIZE_MB * 1024 * 1024.
Definition ALLOWED_MIME_TYPES : list string :=
  ["image/png"; "image/jpeg"; "image/webp"]%string.

(** What the validation reads of a [File]. *)
Record File := mkFile { type : string; size : Z }.

(** Which callback [validateAndUpload] calls, if any. *)
Inductive Outcome :=
| Nothing
| onError (message : string)
| onImageUpload (file : File).

(** [arr.includes(x)] on strings. *)
Definition includes (arr : list string) (x : string) : bool :=
  existsb (String.eqb x) arr.

Definition validateAndUpload (file : option File) : Outcome :=
  match file with
  | None => Nothing
  | Some file =>
      if negb (includes ALLOWED_MIME_TYPES (type file)) then
        onError
          "Invalid file type. Please upload a PNG, JPG, or WEBP image."
      else if Z.ltb MAX_FILE_SIZE (size file) then
        onError
          ("File is too large. Please upload an image smaller than "
           ++ NilZero.string_of_int (Z.to_int MAX_FILE_SIZE_MB) ++ "MB.")
      else onImageUpload file
  end.

End ImageUploader.

(** ** The call to the image model: [transformImage] *)

Module GeminiService.

(** What [transformImage] reads of a [GenerateContentResponse]; [None] is an
    absent ([undefined]) field. *)
Record InlineData := mkInlineData { data : option string }.
Record Part := mkPart { inlineData : option InlineData; text : option string }.
Record Content := mkContent { parts : option (list Part) }.
Record Candidate := mkCandidate {
  content : option Content;
  finishReason : option string
}.
Record PromptFeedback := mkPromptFeedback {
  blockReason : option string;
  blockReasonMessage : option string
}.
Record Response := mkResponse {
  candidates : option (list Candidate);
  promptFeedback : option PromptFeedback
}.

(** A thrown value: an [Error] with its message, or anything else. *)
Inductive Thrown :=
| Error (message : string)
| NotAnError.

(** How the promise of [transformImage], or of the model call inside it,
    settles. *)
Inductive Settled (A : Type) :=
| Resolved (value : A)
| Rejected (reason : Thrown).
Arguments Resolved {A} _.
Arguments Rejected {A} _.

(** Truthiness of an optional string: absent and empty are falsy. *)
Definition truthy (s : option string) : bool :=
  match s with
  | Some s' => negb (String.eqb s' EmptyString)
  | None => false
  end.

(** [response.candidates?.[0]]. *)
Definition firstCandidate (response : Response) : option Candidate :=
  match candidates response with
  | Some (c :: _) => Some c
  | _ => None
  end.

(** [response.candidates?.[0]?.content?.parts?.find(pred)]. *)
Definition findPart (pred : Part -> bool) (response : Response)
  : option Part :=
  match firstCandidate response with
  | Some c =>
      match content c with
      | Some ct =>
          match parts ct with
          | Some ps => find pred ps
          | None => None
          end
      | None => None
      end
  | None => None
  end.

(** [part.inlineData?.data]. *)
Definition inlineDataData (part : Part) : option string :=
  match inlineData part with
  | Some d => data d
  | None => None
  end.

Definition knownErrors : list string :=
  [ "Image generation failed:";
    "Request was blocked.";
    "The model could not generate";
    "Image generation was blocked";
    "The request was too long";
    "The response was blocked" ]%string.

(** The [catch] block: what is thrown in place of [error]. *)
Definition rethrow (error : Thrown) : Thrown :=
  match error with
  | Error message =>
      if existsb (fun e => String.prefix e message) knownErrors
      then error
      else Error ("Failed to communicate with the AI model: " ++ message)
  | NotAnError =>
      Error "An unknown error occurred during image transformation."
  end.

(** [response.promptFeedback?.blockReason],
    [response.promptFeedback?.blockReasonMessage] and
    [response.candidates?.[0]?.finishReason]. *)
Definition blockReasonOf (response : Response) : option string :=
  match promptFeedback response with
  | Some pf => blockReason pf
  | None => None
  end.

Definition blockReasonMessageOf (response : Response) : option string :=
  match promptFeedback response with
  | Some pf => blockReasonMessage pf
  | None => None
  end.

Definition finishReasonOf (response : Response) : option string :=
  match firstCandidate response with
  | Some c => finishReason c
  | None => None
  end.

(** The string held by a truthy optional string. *)
Definition str (s : option string) : string :=
  match s with
  | Some s' => s'
  | None => EmptyString
  end.

Section Host.

(** [String.prototype.split], [String.prototype.trim], and the first capture
    group of [header.match(/:(.*?);/)] ([None] when there is no match). *)
Variable split : string -> string -> list string.
Variable trim : string -> string.
Variable matchMimeType : string -> option string.

(** The error thrown when the response holds no image. *)
Definition noImageError (response : Response) : Thrown :=
  let blockReason := blockReasonOf response in
  if truthy blockReason then
    let blockReasonMessage := blockReasonMessageOf response in
    let fullReason :=
      if truthy blockReasonMessage
      then (str blockReason ++ ": " ++ str blockReasonMessage)%string
      else str blockReason in
    Error ("Request was blocked. Reason: " ++ fullReason)
  else
    let finishReason := finishReasonOf response in
    if truthy finishReason && negb (String.eqb (str finishReason) "STOP") then
      let errorMessage :=
        if String.eqb (str finishReason) "SAFETY"
           || String.eqb (str finishReason) "IMAGE_SAFETY" then
          "Image generation was blocked due to safety policies. Please modify your prompt or image and try again."%string
        else if String.eqb (str finishReason) "IMAGE_OTHER"
                || String.eqb (str finishReason) "OTHER" then
          "The model could not generate an image for this request. This can happen with unusual prompts or images. Please try modifying your settings or using a different photo."%string
        else if String.eqb (str finishReason) "MAX_TOKENS" then
          "The request was too long and exceeded the maximum token limit."%string
        else if String.eqb (str finishReason) "RECITATION" then
          "The response was blocked due to potential recitation of copyrighted material."%string
        else
          ("Image generation failed. Reason: " ++ str finishReason ++ ".")%string in
      Error errorMessage
    else
      let textPart := findPart (fun part => truthy (text part)) response in
      match textPart with
      | Some part =>
          if truthy (text part)
          then Error ("Image generation failed: " ++ trim (str (text part)))
          else
            Error "No image was generated. The model may have refused the request due to content policies or an internal error."
      | None =>
          Error "No image was generated. The model may have refused the request due to content policies or an internal error."
      end.

(** The statements of the [try] block after the response has arrived. *)
Definition readResponse (response : Response) : Settled string :=
  let imagePart :=
    findPart (fun part => truthy (inlineDataData part)) response in
  match imagePart with
  | Some part =>
      if truthy (inlineDataData part)
      then Resolved (str (inlineDataData part))
      else Rejected (noImageError response)
  | None => Rejected (noImageError response)
  end.

(** A data URL that passes the two checks before the model is called. *)
Definition acceptedUrl (dataUrl : string) : bool :=
  truthy (nth_error (split dataUrl ",") 0)
  && truthy (nth_error (split dataUrl ",") 1)
  && truthy (matchMimeType (str (nth_error (split dataUrl ",") 0))).

(** The [try] block; [generateContent] tells how the model call settles. *)
Definition tryBlock (dataUrl : string) (generateContent : Settled Response)
  : Settled string :=
  let header := nth_error (split dataUrl ",") 0 in
  let data := nth_error (split dataUrl ",") 1 in
  if negb (truthy header) || negb (truthy data) then
    Rejected (Error "Invalid image data URL format.")
  else
    let mimeTypeMatch := matchMimeType (str header) in
    if negb (truthy mimeTypeMatch) then
      Rejected (Error "Could not determine MIME type from data URL.")
    else
      match generateContent with
      | Rejected reason => Rejected reason
      | Resolved response => readResponse response
      end.

Definition transformImage (dataUrl : string)
  (generateContent : Settled Response) : Settled string :=
  match tryBlock dataUrl generateContent with
  | Resolved value => Resolved value
  | Rejected error => Rejected (rethrow error)
  end.

End Host.

End GeminiService.

(** ** Stand-ins for host string functions

    [String.prototype.trim], [String.prototype.split] and the regular
    expression of [transformImage] are parameters of the models above.  The
    functions below are concrete instances for text in ASCII without line
    breaks, used where an example has to run. *)

Module HostStrings.

Definition space : Ascii.ascii := Ascii.ascii_of_nat 32.

Fixpoint trimStart (s : string) : string :=
  match s with
  | String c rest => if Ascii.eqb c space then trimStart rest else s
  | EmptyString => EmptyString
  end.

Fixpoint reverse (s acc : string) : string :=
  match s with
  | String c rest => reverse rest (String c acc)
  | EmptyString => acc
  end.

(** [s.trim()], for blanks. *)
Definition trim (s : string) : string :=
  reverse (trimStart (reverse (trimStart s) EmptyString)) EmptyString.

Fixpoint splitChar (sep : Ascii.ascii) (s : string) : list string :=
  match s with
  | EmptyString => [EmptyString]
  | String c rest =>
      if Ascii.eqb c sep then EmptyString :: splitChar sep rest
      else match splitChar sep rest with
           | head :: tail => String c head :: tail
           | [] => [String c EmptyString]
           end
  end.

(** [s.split(sep)], for a separator of one character. *)
Definition split (s sep : string) : list string :=
  match sep with
  | String c EmptyString => splitChar c s
  | _ => [s]
  end.

Fixpoint upTo (stop : Ascii.ascii) (s : string) : option string :=
  match s with
  | EmptyString => None
  | String c rest =>
      if Ascii.eqb c stop then Some EmptyString
      else match upTo stop rest with
           | Some t => Some (String c t)
           | None => None
           end
  end.

(** The first capture group of [header.match(/:(.*?);/)]: the text between
    the first colon and the next semicolon. *)
Fixpoint matchMimeType (header : string) : option string :=
  match header with
  | EmptyString => None
  | String c rest =>
      if Ascii.eqb c (Ascii.ascii_of_nat 58)
      then upTo (Ascii.ascii_of_nat 59) rest
      else matchMimeType rest
  end.

End HostStrings.

(** ** Values used in examples *)

Module Examples.

Definition desk : App.Settings.t :=
  App.Settings.mk App.figurine "a round acrylic base" "On a computer desk"
    "Stoic museum stance" "Bright studio lighting" "blurry background"
    "Realistic" "Glossy finish" CropperHost.Ratio_4_3 App.scale_1_7 App.High.

Definition blank : App.Settings.t :=
  App.Settings.mk App.boxArt "" "" "" "" "text, watermarks" "" ""
    CropperHost.Ratio_1_1 App.scale_1_8 App.Standard.

Definition url : string := "data:image/png;base64,iVBORw0KGgo=".

Definition blocked : GeminiService.Response :=
  GeminiService.mkResponse None
    (Some (GeminiService.mkPromptFeedback
             (Some "PROHIBITED_CONTENT"%string) None)).

Definition cutShort : GeminiService.Response :=
  GeminiService.mkResponse
    (Some [GeminiService.mkCandidate
             (Some (GeminiService.mkContent (Some [])))
             (Some "MALFORMED_FUNCTION_CALL"%string)])
    None.

(** The JSON text of a string that needs no escaping. *)
Definition quote (s : string) : string :=
  String (Ascii.ascii_of_nat 34)
    (s ++ String (Ascii.ascii_of_nat 34) EmptyString).

End Examples.

(** * Properties *)

(** ** Comparisons, [Math.max] and [Math.min] *)

Module JSFacts.

Lemma ltb_lt (a b : Q) : JS.ltb a b = true <-> a < b.
Proof.
  unfold JS.ltb. rewrite negb_true_iff.
  split; intro H.
  - apply Qnot_le_lt. intro Hle. apply Qle_bool_iff in Hle. congruence.
  - destruct (Qle_bool b a) eqn:E; [|reflexivity].
    apply Qle_bool_iff in E. lra.
Qed.

Lemma ltb_ge (a b : Q) : JS.ltb a b = false <-> b <= a.
Proof.
  unfold JS.ltb. rewrite negb_false_iff. apply Qle_bool_iff.
Qed.

Lemma leb_gt (a b : Q) : Qle_bool a b = false <-> b < a.
Proof.
  rewrite <- ltb_lt. unfold JS.ltb. now rewrite negb_true_iff.
Qed.

Lemma eqb_neq (a b : Q) : Qeq_bool a b = false <-> ~ a == b.
Proof.
  split.
  - apply Qeq_bool_neq.
  - intro H. destruct (Qeq_bool a b) eqn:E; [|reflexivity].
    apply Qeq_bool_iff in E. contradiction.
Qed.

Lemma Math_max_cases (a b : Q) :
  (a <= b /\ JS.Math_max a b = b) \/ (b < a /\ JS.Math_max a b = a).
Proof.
  unfold JS.Math_max. destruct (Qle_bool a b) eqn:E.
  - left. split; [now apply Qle_bool_iff | reflexivity].
  - right. split; [now apply leb_gt | reflexivity].
Qed.

Lemma Math_min_cases (a b : Q) :
  (a <= b /\ JS.Math_min a b = a) \/ (b < a /\ JS.Math_min a b = b).
Proof.
  unfold JS.Math_min. destruct (Qle_bool a b) eqn:E.
  - left. split; [now apply Qle_bool_iff | reflexivity].
  - right. split; [now apply leb_gt | reflexivity].
Qed.

End JSFacts.

(** Turn every boolean comparison among the hypotheses into its proposition. *)
Ltac reflect_tests :=
  repeat match goal with
    | H : JS.ltb _ _ = true |- _ => apply JSFacts.ltb_lt in H
    | H : JS.ltb _ _ = false |- _ => apply JSFacts.ltb_ge in H
    | H : JS.gtb _ _ = true |- _ => unfold JS.gtb in H
    | H : JS.gtb _ _ = false |- _ => unfold JS.gtb in H
    | H : Qle_bool _ _ = true |- _ => apply Qle_bool_iff in H
    | H : Qle_bool _ _ = false |- _ => apply JSFacts.leb_gt in H
    | H : Qeq_bool _ _ = true |- _ => apply Qeq_bool_iff in H
    | H : Qeq_bool _ _ = false |- _ => apply JSFacts.eqb_neq in H
    end.

(** Split on the two outcomes of every [Math.max] / [Math.min] in sight. *)
Ltac max_min_cases :=
  repeat match goal with
    | |- context [JS.Math_max ?a ?b] =>
        let H := fresh "Hmax" in
        let E := fresh "Emax" in
        destruct (JSFacts.Math_max_cases a b) as [[H E] | [H E]]; rewrite E in *
    | |- context [JS.Math_min ?a ?b] =>
        let H := fresh "Hmin" in
        let E := fresh "Emin" in
        destruct (JSFacts.Math_min_cases a b) as [[H E] | [H E]]; rewrite E in *
    end.


(** ** The viewport *)

Module ViewportFacts.
Import ImagePreview.

(** Split on every test a handler makes. *)
Ltac handler_cases :=
  repeat match goal with
    | |- context [if ?c then _ else _] => destruct c eqn:?
    end.

Lemma clampScale_bounds (v : Q) :
  MIN_SCALE <= clampScale v /\ clampScale v <= MAX_SCALE.
Proof.
  unfold clampScale, MIN_SCALE, MAX_SCALE.
  max_min_cases; lra.
Qed.

Lemma resetTransform_scale_ok (s : State) : scale_ok (resetTransform s).
Proof.
  unfold scale_ok. simpl. unfold MIN_SCALE, MAX_SCALE. lra.
Qed.

Lemma zoomIn_scale_ok (s : State) : scale_ok s -> scale_ok (zoomIn s).
Proof.
  unfold scale_ok, zoomIn, MIN_SCALE, MAX_SCALE, SCALE_STEP. simpl.
  intros [Hlo Hhi]. max_min_cases; lra.
Qed.

Lemma zoomOut_scale_ok (s : State) : scale_ok s -> scale_ok (zoomOut s).
Proof.
  unfold scale_ok, zoomOut, MIN_SCALE, MAX_SCALE, SCALE_STEP.
  intros [Hlo Hhi]. handler_cases; simpl; unfold MIN_SCALE;
    max_min_cases; lra.
Qed.

Lemma handleWheel_scale_ok (p : Props) (deltaY : Q) (s : State) :
  scale_ok s -> scale_ok (handleWheel p deltaY s).
Proof.
  intros Hs. unfold handleWheel.
  destruct (blocked p); [exact Hs|].
  match goal with
  | |- context [JS.Math_max MIN_SCALE (JS.Math_min MAX_SCALE ?v)] =>
      fold (clampScale v); generalize (clampScale_bounds v)
  end.
  intros Hb. handler_cases; (apply resetTransform_scale_ok || exact Hb).
Qed.

Section Host.

Variable Math_sqrt : Q -> Q.

Lemma handleTouchMove_scale_ok (p : Props) (touches : list Touch.t)
  (s : State) :
  scale_ok s -> scale_ok (handleTouchMove Math_sqrt p touches s).
Proof.
  intros Hs. unfold handleTouchMove.
  destruct (blocked p); [exact Hs|].
  destruct (_ && isDragging s); [exact Hs|].
  destruct (_ && JS.gtb _ _); [|exact Hs].
  match goal with
  | |- context [JS.Math_max MIN_SCALE (JS.Math_min MAX_SCALE ?v)] =>
      fold (clampScale v); generalize (clampScale_bounds v)
  end.
  intros Hb. handler_cases; (apply resetTransform_scale_ok || exact Hb).
Qed.

Lemma dispatch_scale_ok (p : Props) (e : Event) (s : State) :
  scale_ok s -> scale_ok (dispatch Math_sqrt p e s).
Proof.
  intros Hs. destruct e; simpl.
  - now apply handleWheel_scale_ok.
  - unfold handleMouseDown. handler_cases; exact Hs.
  - unfold handleMouseMove. handler_cases; exact Hs.
  - exact Hs.
  - exact Hs.
  - unfold handleTouchStart. handler_cases; exact Hs.
  - now apply handleTouchMove_scale_ok.
  - unfold handleTouchEnd. handler_cases; exact Hs.
  - now apply zoomIn_scale_ok.
  - now apply zoomOut_scale_ok.
  - apply resetTransform_scale_ok.
  - exact Hs.
  - exact Hs.
  - apply resetTransform_scale_ok.
Qed.

Lemma run_scale_ok (tr : list (Props * Event)) (s : State) :
  scale_ok s -> scale_ok (run Math_sqrt tr s).
Proof.
  revert s. induction tr as [|[p e] tr IH]; intros s Hs; simpl.
  - exact Hs.
  - apply IH. now apply dispatch_scale_ok.
Qed.

(** C1. After any sequence of events (wheel, mouse, touch and pinch
    gestures, the zoom, rotate and reset buttons, a change of image), handled
    from the mounted state under any props, the scale lies in the closed
    interval from [MIN_SCALE] = 1 to [MAX_SCALE] = 8. *)
Theorem scale_within_bounds (tr : list (Props * Event)) :
  1 <= scale (run Math_sqrt tr initial) /\
  scale (run Math_sqrt tr initial) <= 8.
Proof.
  apply (run_scale_ok tr initial).
  unfold scale_ok, MIN_SCALE, MAX_SCALE. simpl. lra.
Qed.

(** *** Snap-back at the minimum scale *)

Lemma snaps_or_scales_intro (newScale : Q) (s : State) :
  snaps_or_scales newScale s
    (if Qeq_bool newScale MIN_SCALE then resetTransform s
     else setScale newScale s).
Proof.
  unfold snaps_or_scales.
  destruct (Qeq_bool newScale MIN_SCALE) eqn:E; reflect_tests; split.
  - reflexivity.
  - intro Hne. contradiction.
  - intro He. contradiction.
  - intros _. simpl. repeat split; reflexivity.
Qed.

(** C7. A wheel event (on a bound, not loading image), the zoom-out button
    and a two-contact pinch move (with a pinch distance on record) each
    compute a clamped scale; when that scale equals [MIN_SCALE] the whole
    transform becomes the identity (scale 1, translation 0/0, rotation 0),
    and otherwise the scale alone is set, translation and rotation kept. *)
Theorem zoom_snaps_or_sets_scale :
  (forall (p : Props) (deltaY : Q) (s : State),
      blocked p = false ->
      snaps_or_scales
        (clampScale
           (scale s + (if JS.gtb deltaY 0 then - SCALE_STEP else SCALE_STEP)))
        s (handleWheel p deltaY s)) /\
  (forall s : State,
      snaps_or_scales (JS.Math_max MIN_SCALE (scale s - SCALE_STEP))
        s (zoomOut s)) /\
  (forall (p : Props) (touches : list Touch.t) (s : State),
      blocked p = false ->
      List.length touches = 2%nat ->
      0 < pinchDistRef s ->
      snaps_or_scales
        (clampScale
           (pinchScaleRef s * (getDist Math_sqrt touches / pinchDistRef s)))
        s (handleTouchMove Math_sqrt p touches s)).
Proof.
  split; [|split].
  - intros p deltaY s Hp. unfold handleWheel. rewrite Hp.
    apply snaps_or_scales_intro.
  - intros s. unfold zoomOut. apply snaps_or_scales_intro.
  - intros p touches s Hp Hlen Hdist. unfold handleTouchMove.
    rewrite Hp, Hlen. simpl Nat.eqb. cbv iota. simpl andb.
    apply JSFacts.ltb_lt in Hdist. unfold JS.gtb. rewrite Hdist.
    apply snaps_or_scales_intro.
Qed.

(** *** Rotation *)

Lemma rotate_laws (s : State) :
  rotation_ok s ->
  handleRotateClockwise
    (handleRotateClockwise
       (handleRotateClockwise (handleRotateClockwise s))) = s /\
  handleRotateCounterClockwise (handleRotateClockwise s) = s /\
  handleRotateClockwise (handleRotateCounterClockwise s) = s /\
  rotation_ok (handleRotateClockwise s) /\
  rotation_ok (handleRotateCounterClockwise s).
Proof.
  unfold rotation_ok. destruct s as [sc pos rot drag sp pd ps]. simpl.
  intros [H | [H | [H | [H | []]]]]; subst rot;
    unfold handleRotateClockwise, handleRotateCounterClockwise, setRotation;
    simpl; repeat split; auto.
Qed.

Lemma rotate_frame (s : State) :
  scale (handleRotateClockwise s) = scale s /\
  position (handleRotateClockwise s) = position s /\
  scale (handleRotateCounterClockwise s) = scale s /\
  position (handleRotateCounterClockwise s) = position s.
Proof. repeat split. Qed.

Lemma dispatch_rotation_ok (p : Props) (e : Event) (s : State) :
  rotation_ok s -> rotation_ok (dispatch Math_sqrt p e s).
Proof.
  intros Hs.
  assert (H0 : rotation_ok (resetTransform s)) by (left; reflexivity).
  destruct e; simpl; try exact Hs; try exact H0.
  - unfold handleWheel. handler_cases; assumption.
  - unfold handleMouseDown. handler_cases; exact Hs.
  - unfold handleMouseMove. handler_cases; exact Hs.
  - unfold handleTouchStart. handler_cases; exact Hs.
  - unfold handleTouchMove. handler_cases; assumption.
  - unfold handleTouchEnd. handler_cases; exact Hs.
  - unfold zoomOut. handler_cases; assumption.
  - now apply rotate_laws.
  - now apply rotate_laws.
Qed.

Lemma run_rotation_ok (tr : list (Props * Event)) (s : State) :
  rotation_ok s -> rotation_ok (run Math_sqrt tr s).
Proof.
  revert s. induction tr as [|[p e] tr IH]; intros s Hs; simpl.
  - exact Hs.
  - apply IH. now apply dispatch_rotation_ok.
Qed.

(** C10. In every state [s] the viewport can reach: the rotation is one of
    0, 90, 180, 270; four clockwise rotations give back [s]; a
    counter-clockwise rotation after a clockwise one gives back [s]; both
    rotations keep the rotation among 0, 90, 180, 270 and leave scale and
    translation as they are. *)
Theorem rotation_quarter_turns (tr : list (Props * Event)) :
  let s := run Math_sqrt tr initial in
  In (rotation s) [0; 90; 180; 270]%Z /\
  rotation
    (handleRotateClockwise
       (handleRotateClockwise
          (handleRotateClockwise (handleRotateClockwise s)))) = rotation s /\
  handleRotateCounterClockwise (handleRotateClockwise s) = s /\
  In (rotation (handleRotateClockwise s)) [0; 90; 180; 270]%Z /\
  In (rotation (handleRotateCounterClockwise s)) [0; 90; 180; 270]%Z /\
  (scale (handleRotateClockwise s) = scale s /\
   position (handleRotateClockwise s) = position s) /\
  (scale (handleRotateCounterClockwise s) = scale s /\
   position (handleRotateCounterClockwise s) = position s).
Proof.
  intros s.
  assert (Hs : rotation_ok s).
  { apply run_rotation_ok. left. reflexivity. }
  destruct (rotate_laws s Hs) as (H4 & Hinv & _ & Hcw & Hccw).
  repeat split; try assumption.
  now rewrite H4.
Qed.

(** *** Dragging at the minimum scale *)

(** The two entries into a drag session that test the scale refuse it at
    [MIN_SCALE] or below. *)
Lemma handleMouseDown_at_min_scale (p : Props) (cx cy : Q) (s : State) :
  scale s <= MIN_SCALE -> handleMouseDown p cx cy s = s.
Proof.
  intros H. apply Qle_bool_iff in H. unfold handleMouseDown.
  rewrite H, orb_true_r. reflexivity.
Qed.

Lemma handleTouchStart_at_min_scale (p : Props) (t : Touch.t) (s : State) :
  scale s <= MIN_SCALE -> handleTouchStart Math_sqrt p [t] s = s.
Proof.
  intros H. apply JSFacts.ltb_ge in H. unfold handleTouchStart, JS.gtb.
  rewrite H. destruct (blocked p); reflexivity.
Qed.

(** C2, on the code.  [handleTouchEnd] starts a drag session whenever one
    contact remains, without the test of the scale that [handleMouseDown] and
    [handleTouchStart] make: two contacts put down one after the other at
    scale 1, one of them lifted, and the other moved by (30, 40) leave the
    scale at [MIN_SCALE] and the translation at (30, 40). *)
Theorem touch_end_drags_at_min_scale :
  let p := mkProps (Some "blob:figure"%string) false in
  let s :=
    run Math_sqrt
      [ (p, TouchStart [Touch.mk 100 100]);
        (p, TouchStart [Touch.mk 100 100; Touch.mk 200 100]);
        (p, TouchEnd [Touch.mk 100 100]);
        (p, TouchMove [Touch.mk 130 140]) ]
      initial in
  scale s == MIN_SCALE /\
  Position.x (position s) == 30 /\ Position.y (position s) == 40 /\
  ~ (Position.x (position s) == 0 /\ Position.y (position s) == 0).
Proof.
  vm_compute. repeat split; try discriminate.
  intros [H _]. discriminate H.
Qed.

(** The same state is reached with the mouse: a wheel step back to
    [MIN_SCALE] during a drag resets the transform but not [isDragging], and
    the next move translates the image at scale 1. *)
Lemma wheel_reset_keeps_drag_session :
  let p := mkProps (Some "blob:figure"%string) false in
  let s :=
    run Math_sqrt
      [ (p, ClickZoomIn);
        (p, MouseDown 100 100);
        (p, Wheel 120);
        (p, MouseMove 130 140) ]
      initial in
  scale s == MIN_SCALE /\
  Position.x (position s) == 30 /\ Position.y (position s) == 40.
Proof.
  vm_compute. repeat split; discriminate.
Qed.

End Host.

(** The pinch and wheel cases on a run: a pinch begun at distance 100 and
    scale 1 is opened to distance 150, and a wheel step zooms out of
    scale 1. *)
Lemma zoom_snaps_or_sets_scale_witness :
  let p := mkProps (Some "blob:figure"%string) false in
  let s :=
    run JS.isqrt [ (p, TouchStart [Touch.mk 0 0; Touch.mk 60 80]) ] initial in
  let touches := [Touch.mk 0 0; Touch.mk 90 120] in
  (blocked p = false /\
   List.length touches = 2%nat /\
   0 < pinchDistRef s /\
   snaps_or_scales
     (clampScale (pinchScaleRef s * (getDist JS.isqrt touches / pinchDistRef s)))
     s (handleTouchMove JS.isqrt p touches s)) /\
  snaps_or_scales
    (clampScale (scale s + (if JS.gtb 120 0 then - SCALE_STEP else SCALE_STEP)))
    s (handleWheel p 120 s).
Proof.
  intros p s touches.
  assert (Hp : blocked p = false) by reflexivity.
  assert (Hlen : List.length touches = 2%nat) by reflexivity.
  assert (Hd : 0 < pinchDistRef s) by (vm_compute; reflexivity).
  split.
  - repeat split; try assumption;
      apply (proj2 (proj2 (zoom_snaps_or_sets_scale JS.isqrt)) p touches s
               Hp Hlen Hd).
  - apply (proj1 (zoom_snaps_or_sets_scale JS.isqrt) p 120 s Hp).
Defined.

End ViewportFacts.

(** ** The crop rectangle *)

Module CropFacts.
Import ImageCropper.

(** [lra] and [nra] do not read a division: halving becomes a product, and
    the inverse of a positive [a] becomes a positive number [i] with
    [a * i == 1]. *)
Lemma inverse_facts (a : Q) : 0 < a -> 0 < / a /\ a * / a == 1.
Proof.
  intros Ha. split.
  - now apply Qinv_lt_0_compat.
  - apply Qmult_inv_r. lra.
Qed.

Ltac halves := unfold Qdiv in *; change (/ 2) with (1 # 2) in *.

Ltac no_division a Ha :=
  halves;
  let Hinv := fresh "Hinv" in
  pose proof (inverse_facts a Ha) as Hinv;
  let i := fresh "i" in
  set (i := / a) in *; clearbody i; destruct Hinv.

(** [v / a * a] is [v] again. *)
Lemma times_inverse (a i v : Q) : a * i == 1 -> v * i * a == v.
Proof.
  intros H. rewrite <- Qmult_assoc, (Qmult_comm i a), H. ring.
Qed.

(** *** One move event *)

Lemma resize_aspect_locked (a : Q) (ty : option DragHandle) (dx dy : Q)
  (prev : Rect.t) :
  0 < a -> aspect_locked a (resize a ty dx dy prev).
Proof.
  intros Ha. unfold aspect_locked.
  destruct prev as [x y w h].
  destruct ty as [[]|]; cbn; try reflexivity; field; lra.
Qed.

Lemma clamp_aspect_locked (a : Q) (box : ImageSize.t) (r : Rect.t) :
  0 < a -> aspect_locked a r -> aspect_locked a (clamp a box r).
Proof.
  unfold aspect_locked, clamp. intros Ha Hr.
  destruct r as [x y w h], box as [W H L T]. cbn in *.
  repeat match goal with
    | |- context [if ?c then _ else _] => destruct c eqn:?; cbn
    end; try reflexivity; try assumption; field; lra.
Qed.

Lemma clamp_within (a : Q) (box : ImageSize.t) (r : Rect.t) :
  0 < a -> aspect_locked a r -> within box (clamp a box r).
Proof.
  unfold aspect_locked, within, clamp. intros Ha Hr.
  destruct r as [x y w h], box as [W H L T]. cbn in *.
  repeat match goal with
    | |- context [if ?c then _ else _] => destruct c eqn:?; cbn
    end; reflect_tests; max_min_cases; cbn in *; no_division a Ha;
    repeat split; try lra; try nra;
    match goal with
    | Hai : a * ?i == 1, Hlt : _ < _ + ?v * ?i |- _ =>
        pose proof (times_inverse a i v Hai); nra
    end.
Qed.

(** The updater either keeps the previous rectangle or commits the clamped
    candidate, and it commits only candidates of at least 20 by 20. *)
Lemma updateCrop_cases (a : Q) (box : ImageSize.t) (ty : option DragHandle)
  (dx dy : Q) (prev : Rect.t) :
  let c := clamp a box (resize a ty dx dy prev) in
  ((Rect.width c < 20 \/ Rect.height c < 20) /\
   updateCrop a box ty dx dy prev = prev) \/
  (min_size c /\ updateCrop a box ty dx dy prev = c).
Proof.
  intros c. unfold updateCrop. fold c.
  destruct (JS.ltb (Rect.width c) 20) eqn:Ew;
    destruct (JS.ltb (Rect.height c) 20) eqn:Eh; cbn; reflect_tests.
  - left. split; [left; assumption | reflexivity].
  - left. split; [left; assumption | reflexivity].
  - left. split; [right; assumption | reflexivity].
  - right. split; [split; assumption | reflexivity].
Qed.

(** *** The invariant of a crop session *)

Lemma initCrop_session_inv (p : Props) (box : ImageSize.t) :
  0 < aspectRatioValue p ->
  0 < ImageSize.width box -> 0 < ImageSize.height box ->
  session_inv p box (fitted p box).
Proof.
  intros Ha HW HH. unfold fitted, initCrop.
  destruct box as [W H L T], p as [a]. cbn in *.
  assert (EW : Qeq_bool W 0 = false) by (apply JSFacts.eqb_neq; lra).
  assert (EH : Qeq_bool H 0 = false) by (apply JSFacts.eqb_neq; lra).
  unfold JS.truthy_num. rewrite EW, EH. cbn.
  destruct (JS.gtb a (W / H)) eqn:E; cbn; unfold JS.gtb in E;
    reflect_tests.
  - assert (Hlim : W < a * H).
    { assert (EWH : W == W / H * H) by (field; lra). nra. }
    clear E.
    split; cbn; unfold aspect_locked, within; cbn; no_division a Ha.
    + reflexivity.
    + nra.
    + repeat split; try lra; nra.
    + nra.
  - assert (Hlim : a * H <= W).
    { assert (EWH : W == W / H * H) by (field; lra). nra. }
    clear E.
    split; cbn; unfold aspect_locked, within; cbn; halves.
    + reflexivity.
    + reflexivity.
    + repeat split; try lra; nra.
    + lra.
Qed.

Lemma handleMouseMove_crop (p : Props) (cx cy : Q) (s : State) :
  imageSize (handleMouseMove p cx cy s) = imageSize s /\
  crop (handleMouseMove p cx cy s) =
    if active (dragInfo s)
    then updateCrop (aspectRatioValue p) (imageSize s) (type (dragInfo s))
           (cx - MousePos.x (lastMousePos s))
           (cy - MousePos.y (lastMousePos s)) (crop s)
    else crop s.
Proof.
  unfold handleMouseMove. destruct (active (dragInfo s)); split; reflexivity.
Qed.

Lemma updateCrop_session_inv (p : Props) (box : ImageSize.t)
  (ty : option DragHandle) (dx dy : Q) (prev : Rect.t) :
  0 < aspectRatioValue p ->
  aspect_locked (aspectRatioValue p) prev /\ within box prev /\
  0 < Rect.height prev ->
  let r := updateCrop (aspectRatioValue p) box ty dx dy prev in
  aspect_locked (aspectRatioValue p) r /\ within box r /\ 0 < Rect.height r.
Proof.
  intros Ha Hprev r. subst r.
  destruct (updateCrop_cases (aspectRatioValue p) box ty dx dy prev)
    as [[_ E] | [[Hw20 Hh20] E]]; rewrite E.
  - exact Hprev.
  - pose proof (resize_aspect_locked (aspectRatioValue p) ty dx dy prev Ha)
      as Hr.
    split; [|split].
    + now apply clamp_aspect_locked.
    + now apply clamp_within.
    + lra.
Qed.

Lemma dispatch_session_inv (p : Props) (box : ImageSize.t) (ev : Event)
  (s : State) :
  0 < aspectRatioValue p ->
  session_inv p box s -> session_inv p box (dispatch p ev s).
Proof.
  intros Ha [Hbox Hasp Hin Hh]. subst box.
  destruct ev as [cx cy ty | cx cy |]; cbn [dispatch].
  - split; [reflexivity | assumption ..].
  - destruct (handleMouseMove_crop p cx cy s) as [Ebox Ecrop].
    destruct (active (dragInfo s)).
    + destruct (updateCrop_session_inv p (imageSize s) (type (dragInfo s))
                  (cx - MousePos.x (lastMousePos s))
                  (cy - MousePos.y (lastMousePos s)) (crop s) Ha)
        as (H1 & H2 & H3); [split; [|split]; assumption|].
      split; rewrite ?Ecrop; assumption.
    + split; rewrite ?Ecrop; assumption.
  - split; [reflexivity | assumption ..].
Qed.

Lemma run_session_inv (p : Props) (box : ImageSize.t) (evs : list Event)
  (s : State) :
  0 < aspectRatioValue p ->
  session_inv p box s -> session_inv p box (run p evs s).
Proof.
  intros Ha. revert s.
  induction evs as [|ev evs IH]; intros s Hs; cbn.
  - exact Hs.
  - apply IH. now apply dispatch_session_inv.
Qed.

(** *** Aspect ratio and bounds along a session *)

(** C3. With a positive aspect ratio and a fitted box of positive width and
    height, the crop rectangle after [initCrop] and any sequence of
    mouse-down, mouse-move and mouse-up events has
    [width / height == aspectRatioValue] (exactly so, in exact arithmetic). *)
Theorem aspect_ratio_locked (p : Props) (box : ImageSize.t)
  (evs : list Event) :
  0 < aspectRatioValue p ->
  0 < ImageSize.width box ->
  0 < ImageSize.height box ->
  let r := crop (run p evs (fitted p box)) in
  Rect.width r / Rect.height r == aspectRatioValue p.
Proof.
  intros Ha HW HH r.
  destruct (run_session_inv p box evs (fitted p box) Ha
              (initCrop_session_inv p box Ha HW HH))
    as [_ Hasp _ Hh].
  fold r in Hasp, Hh. unfold aspect_locked in Hasp.
  rewrite Hasp. field. lra.
Qed.

(** C4. Under the same conditions the crop rectangle stays inside the fitted
    box: its left and top edges are not before the box's, and its right and
    bottom edges are not beyond the box's. *)
Theorem crop_within_fitted_box (p : Props) (box : ImageSize.t)
  (evs : list Event) :
  0 < aspectRatioValue p ->
  0 < ImageSize.width box ->
  0 < ImageSize.height box ->
  let r := crop (run p evs (fitted p box)) in
  ImageSize.left box <= Rect.x r /\
  ImageSize.top box <= Rect.y r /\
  Rect.x r + Rect.width r <= ImageSize.left box + ImageSize.width box /\
  Rect.y r + Rect.height r <= ImageSize.top box + ImageSize.height box.
Proof.
  intros Ha HW HH r.
  destruct (run_session_inv p box evs (fitted p box) Ha
              (initCrop_session_inv p box Ha HW HH))
    as [_ _ Hin _].
  exact Hin.
Qed.

(** *** The minimum size *)

Lemma dispatch_min_size (p : Props) (ev : Event) (s : State) :
  min_size (crop s) -> min_size (crop (dispatch p ev s)).
Proof.
  intros Hs. destruct ev as [cx cy ty | cx cy |]; cbn [dispatch].
  - exact Hs.
  - destruct (handleMouseMove_crop p cx cy s) as [_ Ecrop].
    rewrite Ecrop. destruct (active (dragInfo s)); [|exact Hs].
    match goal with
    | |- min_size (updateCrop ?a ?b ?t ?dx ?dy ?r) =>
        destruct (updateCrop_cases a b t dx dy r) as [[_ E] | [Hc E]];
        rewrite E; assumption
    end.
  - exact Hs.
Qed.

Lemma run_min_size (p : Props) (evs : list Event) (s : State) :
  min_size (crop s) -> min_size (crop (run p evs s)).
Proof.
  revert s. induction evs as [|ev evs IH]; intros s Hs; cbn.
  - exact Hs.
  - apply IH. now apply dispatch_min_size.
Qed.

(** C5, as the code has it.  A move event whose clamped candidate is narrower
    or lower than 20 leaves the crop rectangle identical to the previous one;
    every move event either leaves the rectangle identical or commits one of
    at least 20 by 20; so a session that starts from a rectangle of at least
    20 by 20 only ever shows such rectangles.  ([initCrop] itself applies no
    minimum.) *)
Theorem min_size_guard :
  (forall (a : Q) (box : ImageSize.t) (ty : option DragHandle) (dx dy : Q)
          (prev : Rect.t),
      let c := clamp a box (resize a ty dx dy prev) in
      Rect.width c < 20 \/ Rect.height c < 20 ->
      updateCrop a box ty dx dy prev = prev) /\
  (forall (a : Q) (box : ImageSize.t) (ty : option DragHandle) (dx dy : Q)
          (prev : Rect.t),
      updateCrop a box ty dx dy prev = prev \/
      (20 <= Rect.width (updateCrop a box ty dx dy prev) /\
       20 <= Rect.height (updateCrop a box ty dx dy prev))) /\
  (forall (p : Props) (evs : list Event) (s : State),
      20 <= Rect.width (crop s) /\ 20 <= Rect.height (crop s) ->
      20 <= Rect.width (crop (run p evs s)) /\
      20 <= Rect.height (crop (run p evs s))).
Proof.
  split; [|split].
  - intros a box ty dx dy prev c Hsmall.
    destruct (updateCrop_cases a box ty dx dy prev) as [[_ E] | [[Hw Hh] E]].
    + exact E.
    + fold c in Hw, Hh. destruct Hsmall; lra.
  - intros a box ty dx dy prev.
    destruct (updateCrop_cases a box ty dx dy prev) as [[_ E] | [Hc E]].
    + left. exact E.
    + right. rewrite E. exact Hc.
  - intros p evs s Hs. now apply run_min_size.
Qed.

(** *** Layout: the fitted box and the initial crop *)

(** A container and an image of positive dimensions give a fitted box of
    positive dimensions. *)
Lemma onImageLoad_positive (c : Container) (img : Image) (s : State) :
  0 < clientWidth c -> 0 < clientHeight c ->
  0 < naturalWidth img -> 0 < naturalHeight img ->
  0 < ImageSize.width (imageSize (onImageLoad (Some c) (Some img) s)) /\
  0 < ImageSize.height (imageSize (onImageLoad (Some c) (Some img) s)).
Proof.
  intros Hcw Hch Hnw Hnh. unfold onImageLoad.
  assert (Hr : 0 < naturalWidth img / naturalHeight img).
  { apply Qlt_shift_div_l; lra. }
  destruct (JS.gtb _ _); cbn; split; try assumption.
  - apply Qlt_shift_div_l; lra.
  - apply Qmult_lt_0_compat; assumption.
Qed.

(** C6. For a container and an image of positive dimensions, [onImageLoad]
    gives the image the full container width when the image's aspect
    exceeds the container's, and the full container height otherwise,
    deriving the other side from the image's aspect and centring it in the
    container.  For a fitted box with non-zero sides and a non-zero
    [aspectRatioValue], [initCrop] takes 0.8 of the fitted width when
    [aspectRatioValue] exceeds the fitted aspect, and 0.8 of the fitted
    height otherwise, derives the other side from [aspectRatioValue], and
    centres the rectangle in the fitted box.  A 1000 x 500 image in a
    500 x 500 container with [aspectRatioValue] 1 gets the fitted box
    (width 500, height 250, left 0, top 125) and the crop (x 150, y 150,
    width 200, height 200). *)
Theorem fitted_box_and_initial_crop :
  (forall (c : Container) (img : Image) (s : State),
      let containerRatio := clientWidth c / clientHeight c in
      let imgRatio := naturalWidth img / naturalHeight img in
      let box := imageSize (onImageLoad (Some c) (Some img) s) in
      0 < clientWidth c -> 0 < clientHeight c ->
      0 < naturalWidth img -> 0 < naturalHeight img ->
      (containerRatio < imgRatio ->
       ImageSize.width box = clientWidth c /\
       ImageSize.height box = clientWidth c / imgRatio /\
       ImageSize.left box = 0) /\
      (imgRatio <= containerRatio ->
       ImageSize.height box = clientHeight c /\
       ImageSize.width box = clientHeight c * imgRatio /\
       ImageSize.top box = 0) /\
      centered 0 (clientWidth c) (ImageSize.left box) (ImageSize.width box) /\
      centered 0 (clientHeight c) (ImageSize.top box) (ImageSize.height box)) /\
  (forall (p : Props) (s : State),
      let box := imageSize s in
      let r := crop (initCrop p s) in
      ~ ImageSize.width box == 0 ->
      ~ ImageSize.height box == 0 ->
      ~ aspectRatioValue p == 0 ->
      (ImageSize.width box / ImageSize.height box < aspectRatioValue p ->
       Rect.width r = ImageSize.width box * 0.8 /\
       Rect.height r = Rect.width r / aspectRatioValue p) /\
      (aspectRatioValue p <= ImageSize.width box / ImageSize.height box ->
       Rect.height r = ImageSize.height box * 0.8 /\
       Rect.width r = Rect.height r * aspectRatioValue p) /\
      centered (ImageSize.left box) (ImageSize.width box)
        (Rect.x r) (Rect.width r) /\
      centered (ImageSize.top box) (ImageSize.height box)
        (Rect.y r) (Rect.height r)) /\
  (let s := loaded (mkProps 1) (Some (mkContainer 500 500))
              (Some (mkImage 1000 500)) in
   box_eq (imageSize s) (ImageSize.mk 500 250 0 125) /\
   rect_eq (crop s) (Rect.mk 150 150 200 200)).
Proof.
  split; [|split].
  - intros c img s containerRatio imgRatio box _ _ _ _. subst box.
    unfold onImageLoad. fold containerRatio imgRatio.
    unfold centered.
    destruct (JS.gtb imgRatio containerRatio) eqn:E; unfold JS.gtb in E;
      reflect_tests; cbn; repeat split; try lra; try (field; fail).
    all: try (unfold Qdiv; change (/ 2) with (1 # 2); ring).
  - intros p s box r HW HH _. subst r. unfold initCrop. fold box.
    unfold JS.truthy_num.
    apply JSFacts.eqb_neq in HW, HH. rewrite HW, HH. cbn [negb orb].
    unfold centered.
    destruct (JS.gtb (aspectRatioValue p) (ImageSize.width box / ImageSize.height box))
      eqn:E; unfold JS.gtb in E; reflect_tests; cbn; repeat split;
      try lra; try (unfold Qdiv; change (/ 2) with (1 # 2); ring).
  - vm_compute. repeat split.
Qed.

(** *** Export *)

Lemma handleMouseUp_clears_session (s : State) :
  dragInfo (handleMouseUp s) = mkDragInfo false None /\
  crop (handleMouseUp s) = crop s /\
  imageSize (handleMouseUp s) = imageSize s.
Proof. repeat split. Qed.



(** While a drag of the [e] handle is on record the canvas is 2 display
    pixels narrower than the crop. *)
Lemma save_during_edge_drag_trims :
  let img := mkImage 1000 500 in
  let s := handleMouseDown 350 250 He
             (fitted (mkProps 1) (ImageSize.mk 500 250 0 125)) in
  exists ex : Export,
    handleSave (Some img) true s = Some ex /\
    sWidth (drawImage ex) == 400 /\ canvas_width (canvas ex) = 396%Z.
Proof.
  eexists. split; [reflexivity|]. split; reflexivity.
Qed.

(** *** The [move] handle *)

(** C9, as the code has it.  A [move] drag with no horizontal movement, on an
    aspect-locked rectangle inside the fitted box, whose shifted rectangle
    does not pass the bottom edge of the box, keeps x, width and height; it
    moves y to [max(top, y + dy)], or keeps the rectangle as it was (when it
    is narrower or lower than 20). *)
Theorem move_vertical_keeps_size (a : Q) (box : ImageSize.t) (dy : Q)
  (prev : Rect.t) :
  0 < a ->
  aspect_locked a prev ->
  within box prev ->
  Rect.y prev + dy + Rect.height prev
    <= ImageSize.top box + ImageSize.height box ->
  let r := updateCrop a box (Some Hmove) 0 dy prev in
  Rect.width r == Rect.width prev /\
  Rect.height r == Rect.height prev /\
  Rect.x r == Rect.x prev /\
  (Rect.y r == JS.Math_max (ImageSize.top box) (Rect.y prev + dy) \/
   r = prev).
Proof.
  intros Ha Hasp (Hl & Ht & Hr & Hb) Hdy r. subst r.
  unfold aspect_locked in Hasp.
  destruct prev as [x y w h], box as [W H L T]. cbn in *.
  assert (Eh : (w + 0) / a == h).
  { rewrite Hasp. field. lra. }
  unfold updateCrop, clamp. cbn.
  assert (Ex : JS.Math_max L (x + 0) = x + 0).
  { destruct (JSFacts.Math_max_cases L (x + 0)) as [[_ E] | [Hlt _]];
      [exact E | lra]. }
  rewrite Ex.
  assert (Er : JS.gtb (x + 0 + (w + 0)) (L + W) = false).
  { apply JSFacts.ltb_ge. lra. }
  rewrite Er. cbn.
  assert (Eb : JS.gtb (JS.Math_max T (y + dy) + (w + 0) / a) (T + H) = false).
  { apply JSFacts.ltb_ge. rewrite Eh.
    destruct (JSFacts.Math_max_cases T (y + dy)) as [[_ E] | [_ E]];
      rewrite E; lra. }
  rewrite Eb. cbn.
  destruct (JS.ltb (w + 0) 20 || JS.ltb ((w + 0) / a) 20) eqn:Esmall; cbn.
  - repeat split; try reflexivity. right. reflexivity.
  - repeat split; try lra; assumption.
Qed.


(** *** The theorems on runs *)

(** A drag of the south-east handle by (-10, -20) on the initial 4:3 crop of
    a 500 x 250 fitted box. *)
Lemma aspect_ratio_locked_witness :
  let p := mkProps (4 # 3) in
  let box := ImageSize.mk 500 250 0 125 in
  let evs := [MouseDown 350 350 Hse; MouseMove 340 330; MouseUp] in
  0 < aspectRatioValue p /\
  0 < ImageSize.width box /\
  0 < ImageSize.height box /\
  Rect.width (crop (run p evs (fitted p box)))
    / Rect.height (crop (run p evs (fitted p box))) == aspectRatioValue p.
Proof.
  intros p box evs.
  assert (Ha : 0 < aspectRatioValue p) by reflexivity.
  assert (HW : 0 < ImageSize.width box) by reflexivity.
  assert (HH : 0 < ImageSize.height box) by reflexivity.
  split; [exact Ha | split; [exact HW | split; [exact HH |]]].
  exact (aspect_ratio_locked p box evs Ha HW HH).
Defined.

(** A drag of the east handle by +400, which the clamp stops at the right
    edge of the box. *)
Lemma crop_within_fitted_box_witness :
  let p := mkProps 1 in
  let box := ImageSize.mk 500 250 0 125 in
  let evs := [MouseDown 350 250 He; MouseMove 750 250; MouseUp] in
  let r := crop (run p evs (fitted p box)) in
  0 < aspectRatioValue p /\
  0 < ImageSize.width box /\
  0 < ImageSize.height box /\
  (ImageSize.left box <= Rect.x r /\
   ImageSize.top box <= Rect.y r /\
   Rect.x r + Rect.width r <= ImageSize.left box + ImageSize.width box /\
   Rect.y r + Rect.height r <= ImageSize.top box + ImageSize.height box).
Proof.
  intros p box evs r.
  assert (Ha : 0 < aspectRatioValue p) by reflexivity.
  assert (HW : 0 < ImageSize.width box) by reflexivity.
  assert (HH : 0 < ImageSize.height box) by reflexivity.
  split; [exact Ha | split; [exact HW | split; [exact HH |]]].
  exact (crop_within_fitted_box p box evs Ha HW HH).
Defined.

(** C5 fails on the first rectangle of a panorama.  A 4000 x 100 image in an
    800 x 600 container is fitted to 800 x 20, so the initial 1:1 crop is
    16 x 16; a vertical [move] drag proposes a 16 x 16 rectangle again, which
    the guard refuses, and the 16 x 16 rectangle stays. *)
Lemma initial_crop_below_min_size :
  let p := mkProps 1 in
  let s := loaded p (Some (mkContainer 800 600)) (Some (mkImage 4000 100)) in
  let s' := run p [MouseDown 400 300 Hmove; MouseMove 400 302; MouseUp] s in
  box_eq (imageSize s) (ImageSize.mk 800 20 0 290) /\
  rect_eq (crop s) (Rect.mk 392 292 16 16) /\
  crop s' = crop s /\
  ~ (20 <= Rect.width (crop s) /\ 20 <= Rect.height (crop s)) /\
  ~ (20 <= Rect.width (crop s') /\ 20 <= Rect.height (crop s')).
Proof.
  vm_compute. repeat split; try discriminate.
  - intros [H _]. apply H. reflexivity.
  - intros [H _]. apply H. reflexivity.
Qed.

(** The guard refusing a south-east drag that would leave 10 x 10. *)
Lemma min_size_guard_witness :
  let box := ImageSize.mk 500 250 0 125 in
  let prev := Rect.mk 150 150 200 200 in
  let c := clamp 1 box (resize 1 (Some Hse) (-190) (-190) prev) in
  (Rect.width c < 20 \/ Rect.height c < 20) /\
  updateCrop 1 box (Some Hse) (-190) (-190) prev = prev.
Proof.
  intros box prev c.
  assert (Hsmall : Rect.width c < 20 \/ Rect.height c < 20)
    by (left; reflexivity).
  split; [exact Hsmall|].
  exact (proj1 min_size_guard 1 box (Some Hse) (-190) (-190) prev Hsmall).
Defined.

(** The 1000 x 500 scenario through the general clauses: the image is wider
    than the container, and the crop is limited by the fitted height. *)
Lemma fitted_box_and_initial_crop_witness :
  let c := mkContainer 500 500 in
  let img := mkImage 1000 500 in
  let p := mkProps 1 in
  let s := onImageLoad (Some c) (Some img) initial in
  ((0 < clientWidth c /\ 0 < clientHeight c /\
    0 < naturalWidth img /\ 0 < naturalHeight img) /\
   clientWidth c / clientHeight c < naturalWidth img / naturalHeight img /\
   ImageSize.width (imageSize s) = clientWidth c) /\
  ((~ ImageSize.width (imageSize s) == 0 /\
    ~ ImageSize.height (imageSize s) == 0 /\
    ~ aspectRatioValue p == 0) /\
   aspectRatioValue p
     <= ImageSize.width (imageSize s) / ImageSize.height (imageSize s) /\
   Rect.height (crop (initCrop p s)) = ImageSize.height (imageSize s) * 0.8).
Proof.
  intros c img p s.
  assert (H1 : clientWidth c / clientHeight c
               < naturalWidth img / naturalHeight img) by reflexivity.
  assert (H2 : aspectRatioValue p
               <= ImageSize.width (imageSize s)
                  / ImageSize.height (imageSize s))
    by (vm_compute; discriminate).
  assert (HW : ~ ImageSize.width (imageSize s) == 0)
    by (vm_compute; discriminate).
  assert (HH : ~ ImageSize.height (imageSize s) == 0)
    by (vm_compute; discriminate).
  assert (Ha : ~ aspectRatioValue p == 0) by (vm_compute; discriminate).
  assert (Hcw : 0 < clientWidth c) by reflexivity.
  assert (Hch : 0 < clientHeight c) by reflexivity.
  assert (Hnw : 0 < naturalWidth img) by reflexivity.
  assert (Hnh : 0 < naturalHeight img) by reflexivity.
  split; (split; [repeat split; assumption|]); (split; [assumption|]).
  - exact (proj1 (proj1 (proj1 fitted_box_and_initial_crop c img initial
                           Hcw Hch Hnw Hnh) H1)).
  - exact (proj1 (proj1 (proj2 (proj1 (proj2 fitted_box_and_initial_crop)
                                 p s HW HH Ha)) H2)).
Defined.



(** C9 fails at the bottom edge.  The initial 2:1 crop of a 1000 x 1000 box
    is 800 x 400 at (100, 300); a [move] drag straight down by 400 would put
    its bottom edge at 1100, and the clamp commits 600 x 300 at (100, 700). *)
Lemma move_past_bottom_edge_shrinks :
  let p := mkProps 2 in
  let s := fitted p (ImageSize.mk 1000 1000 0 0) in
  let s' := run p [MouseDown 500 500 Hmove; MouseMove 500 900] s in
  rect_eq (crop s) (Rect.mk 100 300 800 400) /\
  rect_eq (crop s') (Rect.mk 100 700 600 300) /\
  ~ (Rect.width (crop s') == Rect.width (crop s) /\
     Rect.height (crop s') == Rect.height (crop s)).
Proof.
  vm_compute. repeat split; try discriminate.
  intros [H _]. discriminate H.
Qed.

(** The literal ["move"] includes the letter ["e"], so the test for the east
    edge holds for the [move] handle too: a [move] drag by 10 to the right
    widens the same rectangle to 810 x 405 while shifting it. *)
Lemma move_handle_takes_east_delta :
  let p := mkProps 2 in
  let s := fitted p (ImageSize.mk 1000 1000 0 0) in
  let s' := run p [MouseDown 500 500 Hmove; MouseMove 510 500] s in
  type_includes (Some Hmove) "e" = true /\
  rect_eq (crop s) (Rect.mk 100 300 800 400) /\
  rect_eq (crop s') (Rect.mk 110 300 810 405).
Proof.
  vm_compute. repeat split.
Qed.

(** A [move] drag straight down by 100, well inside the box. *)
Lemma move_vertical_keeps_size_witness :
  let box := ImageSize.mk 1000 1000 0 0 in
  let prev := Rect.mk 100 300 800 400 in
  let r := updateCrop 2 box (Some Hmove) 0 100 prev in
  (0 < 2 /\ aspect_locked 2 prev /\ within box prev /\
   Rect.y prev + 100 + Rect.height prev
     <= ImageSize.top box + ImageSize.height box) /\
  Rect.width r == Rect.width prev /\
  Rect.height r == Rect.height prev /\
  Rect.x r == Rect.x prev /\
  (Rect.y r == JS.Math_max (ImageSize.top box) (Rect.y prev + 100) \/
   r = prev).
Proof.
  intros box prev r.
  assert (Ha : 0 < 2) by reflexivity.
  assert (Hasp : aspect_locked 2 prev) by reflexivity.
  assert (Hin : within box prev) by (vm_compute; repeat split; discriminate).
  assert (Hdy : Rect.y prev + 100 + Rect.height prev
                <= ImageSize.top box + ImageSize.height box)
    by (vm_compute; discriminate).
  split; [split; [exact Ha | split; [exact Hasp | split; assumption]]|].
  exact (move_vertical_keeps_size 2 box 100 prev Ha Hasp Hin Hdy).
Defined.

End CropFacts.

(** ** The viewport: gestures, buttons and controls *)

Module ViewportMore.
Import ImagePreview ImagePreviewControls.

Lemma setIsDragging_same (s : State) :
  setIsDragging (isDragging s) s = s.
Proof. destruct s; reflexivity. Qed.

Lemma run_app (sq : Q -> Q) (tr1 tr2 : list (Props * Event)) (s : State) :
  run sq (tr1 ++ tr2) s = run sq tr2 (run sq tr1 s).
Proof. unfold run. apply fold_left_app. Qed.

Lemma run_cons (sq : Q -> Q) (p : Props) (e : Event)
  (tr : list (Props * Event)) (s : State) :
  run sq ((p, e) :: tr) s = run sq tr (dispatch sq p e s).
Proof. reflexivity. Qed.

Lemma run_nil (sq : Q -> Q) (s : State) : run sq [] s = s.
Proof. reflexivity. Qed.

(** *** The zoom buttons and the wheel *)

(** X7. On a bound image that is not loading, with the scale within its
    bounds, a wheel step does exactly what the matching button does: a
    positive [deltaY] is a click on zoom-out, any other a click on zoom-in. *)
Theorem wheel_is_zoom_button (p : Props) (deltaY : Q) (s : State) :
  blocked p = false ->
  scale_ok s ->
  handleWheel p deltaY s
  = if JS.gtb deltaY 0 then zoomOut s else zoomIn s.
Proof.
  unfold scale_ok, MIN_SCALE, MAX_SCALE. intros Hp [Hlo Hhi].
  unfold handleWheel, zoomOut, zoomIn. rewrite Hp.
  unfold MIN_SCALE, MAX_SCALE, SCALE_STEP.
  destruct (JS.gtb deltaY 0).
  - assert (E : JS.Math_min 8 (scale s + Qopp 0.5) = scale s + Qopp 0.5).
    { destruct (JSFacts.Math_min_cases 8 (scale s + Qopp 0.5))
        as [[H _] | [_ E]]; [lra | exact E]. }
    rewrite E. reflexivity.
  - assert (E : JS.Math_max 1 (JS.Math_min 8 (scale s + 0.5))
                = JS.Math_min 8 (scale s + 0.5)).
    { destruct (JSFacts.Math_max_cases 1 (JS.Math_min 8 (scale s + 0.5)))
        as [[_ E] | [H _]]; [exact E|].
      destruct (JSFacts.Math_min_cases 8 (scale s + 0.5)) as [[_ E'] | [_ E']];
        rewrite E' in H; lra. }
    rewrite E.
    assert (N : Qeq_bool (JS.Math_min 8 (scale s + 0.5)) 1 = false).
    { apply JSFacts.eqb_neq.
      destruct (JSFacts.Math_min_cases 8 (scale s + 0.5)) as [[_ E'] | [_ E']];
        rewrite E'; lra. }
    rewrite N. reflexivity.
Qed.

(** X8. Zooming in and then out.  From a scale above the minimum and at most
    7.5 the pair of clicks gives back the scale and leaves translation and
    rotation alone; from the minimum scale it ends in the identity
    transform, so a rotation set at scale 1 is lost. *)
Theorem zoom_in_then_out (s : State) :
  (MIN_SCALE < scale s -> scale s <= 7.5 ->
   scale (zoomOut (zoomIn s)) == scale s /\
   position (zoomOut (zoomIn s)) = position s /\
   rotation (zoomOut (zoomIn s)) = rotation s) /\
  (scale s == MIN_SCALE -> transform (zoomOut (zoomIn s)) = identity).
Proof.
  unfold zoomOut, zoomIn, MIN_SCALE, MAX_SCALE, SCALE_STEP.
  cbn [scale setScale].
  split.
  - intros Hlo Hhi.
    destruct (JSFacts.Math_min_cases 8 (scale s + 0.5)) as [[Hm Em] | [Hm Em]];
      rewrite Em;
      match goal with
      | |- context [JS.Math_max 1 ?v] =>
          destruct (JSFacts.Math_max_cases 1 v) as [[Hx Ex] | [Hx Ex]];
          rewrite Ex
      end; try lra;
      match goal with
      | |- context [Qeq_bool ?v 1] =>
          assert (N : Qeq_bool v 1 = false) by (apply JSFacts.eqb_neq; lra);
          rewrite N
      end; cbn; repeat split; lra.
  - intros Heq.
    destruct (JSFacts.Math_min_cases 8 (scale s + 0.5)) as [[Hm Em] | [Hm Em]];
      rewrite Em; [lra|].
    match goal with
    | |- context [Qeq_bool ?v 1] =>
        assert (N : Qeq_bool v 1 = true)
    end.
    { apply Qeq_bool_iff.
      destruct (JSFacts.Math_max_cases 1 (scale s + 0.5 - 0.5))
        as [[Hx Ex] | [Hx Ex]]; rewrite Ex; lra. }
    rewrite N. reflexivity.
Qed.

Lemma of_nat_succ_Q (n : nat) :
  inject_Z (Z.of_nat (S n)) == inject_Z (Z.of_nat n) + 1.
Proof.
  rewrite Nat2Z.inj_succ. unfold Z.succ. rewrite inject_Z_plus. reflexivity.
Qed.

(** X9. [n] clicks on zoom-in from a scale of at most 8 leave the scale at
    [min(8, scale + n / 2)] and do not touch translation or rotation; from a
    scale within bounds, fourteen clicks or more reach the maximum. *)
Theorem repeated_zoomIn (n : nat) (s : State) :
  scale s <= MAX_SCALE ->
  let s' := Nat.iter n zoomIn s in
  scale s'
  == JS.Math_min MAX_SCALE (scale s + inject_Z (Z.of_nat n) * SCALE_STEP) /\
  position s' = position s /\
  rotation s' = rotation s /\
  (MIN_SCALE <= scale s -> (14 <= n)%nat -> scale s' == MAX_SCALE).
Proof.
  intros Hhi s'. subst s'. unfold MAX_SCALE, MIN_SCALE, SCALE_STEP in *.
  assert (Hmain :
    scale (Nat.iter n zoomIn s)
    == JS.Math_min 8 (scale s + inject_Z (Z.of_nat n) * 0.5) /\
    position (Nat.iter n zoomIn s) = position s /\
    rotation (Nat.iter n zoomIn s) = rotation s).
  { induction n as [|n IH].
    - change (Nat.iter 0 zoomIn s) with s. cbn [Z.of_nat]. repeat split.
      destruct (JSFacts.Math_min_cases 8 (scale s + inject_Z 0 * 0.5))
        as [[H E] | [H E]]; rewrite E; unfold inject_Z in *; lra.
    - destruct IH as (IHs & IHp & IHr).
      change (Nat.iter (S n) zoomIn s) with (zoomIn (Nat.iter n zoomIn s)).
      unfold zoomIn at 1 3 5. cbn [scale position rotation setScale].
      unfold MAX_SCALE, SCALE_STEP.
      split; [|split; assumption].
      pose proof (of_nat_succ_Q n) as Hn.
      set (k := inject_Z (Z.of_nat n)) in *.
      set (k' := inject_Z (Z.of_nat (S n))) in *.
      set (t := scale (Nat.iter n zoomIn s)) in *.
      destruct (JSFacts.Math_min_cases 8 (scale s + k * 0.5))
        as [[H1 E1] | [H1 E1]]; rewrite E1 in IHs;
      destruct (JSFacts.Math_min_cases 8 (t + 0.5))
        as [[H2 E2] | [H2 E2]]; rewrite E2;
      destruct (JSFacts.Math_min_cases 8 (scale s + k' * 0.5))
        as [[H3 E3] | [H3 E3]]; rewrite E3; lra. }
  destruct Hmain as (Hs & Hp & Hr).
  repeat split; try assumption.
  intros Hlo Hn. rewrite Hs.
  assert (Hk : 14 <= inject_Z (Z.of_nat n)).
  { change 14 with (inject_Z 14). rewrite <- Zle_Qle. lia. }
  destruct (JSFacts.Math_min_cases 8 (scale s + inject_Z (Z.of_nat n) * 0.5))
    as [[H E] | [H E]]; rewrite E; lra.
Qed.

(** X10. [n] clicks on zoom-out from a scale of at least 1 leave the scale
    at [max(1, scale - n / 2)]; once that is 1 (and a click was made) the
    whole transform is the identity. *)
Theorem repeated_zoomOut (n : nat) (s : State) :
  MIN_SCALE <= scale s ->
  let s' := Nat.iter n zoomOut s in
  scale s'
  == JS.Math_max MIN_SCALE (scale s - inject_Z (Z.of_nat n) * SCALE_STEP) /\
  ((0 < n)%nat ->
   scale s - inject_Z (Z.of_nat n) * SCALE_STEP <= MIN_SCALE ->
   transform s' = identity).
Proof.
  intros Hlo s'. subst s'. unfold MIN_SCALE, SCALE_STEP in *.
  induction n as [|n IH].
  - change (Nat.iter 0 zoomOut s) with s. cbn [Z.of_nat].
    split; [|intros Hn; inversion Hn].
    destruct (JSFacts.Math_max_cases 1 (scale s - inject_Z 0 * 0.5))
      as [[H E] | [H E]]; rewrite E; unfold inject_Z in *; lra.
  - destruct IH as (IHs & IHid).
    change (Nat.iter (S n) zoomOut s) with (zoomOut (Nat.iter n zoomOut s)).
    unfold zoomOut at 1 3. unfold MIN_SCALE, SCALE_STEP.
    pose proof (of_nat_succ_Q n) as Hn.
    set (k := inject_Z (Z.of_nat n)) in *.
    set (k' := inject_Z (Z.of_nat (S n))) in *.
    set (t := scale (Nat.iter n zoomOut s)) in *.
    destruct (JSFacts.Math_max_cases 1 (scale s - k * 0.5))
      as [[H1 E1] | [H1 E1]]; rewrite E1 in IHs;
    destruct (JSFacts.Math_max_cases 1 (t - 0.5))
      as [[H2 E2] | [H2 E2]]; rewrite E2;
    destruct (JSFacts.Math_max_cases 1 (scale s - k' * 0.5))
      as [[H3 E3] | [H3 E3]]; rewrite E3;
    match goal with
    | |- context [Qeq_bool ?v 1] =>
        destruct (Qeq_bool v 1) eqn:E; reflect_tests
    end; cbn [scale resetTransform setScale setPosition setRotation
              transform]; unfold MIN_SCALE;
    (split; [try lra | intros _ Hle; try reflexivity; try lra]).
Qed.

Section Host.

Variable Math_sqrt : Q -> Q.

(** *** Gestures that are refused *)

Lemma blocked_gesture_step (p : Props) (e : Event) (s : State) :
  blocked p = true -> is_gesture e = true ->
  transform (dispatch Math_sqrt p e s) = transform s.
Proof.
  intros Hp He. destruct e; try discriminate He; cbn [dispatch].
  - unfold handleWheel. now rewrite Hp.
  - unfold handleMouseDown. now rewrite Hp.
  - unfold handleMouseMove. now rewrite Hp, orb_true_r.
  - reflexivity.
  - reflexivity.
  - unfold handleTouchStart. now rewrite Hp.
  - unfold handleTouchMove. now rewrite Hp.
  - unfold handleTouchEnd. destruct (Nat.eqb _ _); reflexivity.
Qed.

(** X1. While no image is bound, or while the image is loading, no wheel,
    mouse or touch event changes scale, translation or rotation. *)
Theorem blocked_gestures_keep_transform (tr : list (Props * Event))
  (s : State) :
  Forall (fun pe => blocked (fst pe) = true /\ is_gesture (snd pe) = true)
    tr ->
  transform (run Math_sqrt tr s) = transform s.
Proof.
  revert s. induction tr as [|[p e] tr IH]; intros s Hall.
  - reflexivity.
  - inversion Hall as [|pe tr' [Hp He] Hrest]; subst. rewrite run_cons.
    rewrite (IH _ Hrest). now apply blocked_gesture_step.
Qed.

Lemma mouse_at_min_scale_no_op (p : Props) (e : Event) (s : State) :
  scale s <= MIN_SCALE -> isDragging s = false -> is_mouse e = true ->
  dispatch Math_sqrt p e s = s.
Proof.
  intros Hs Hd He. destruct e; try discriminate He; cbn [dispatch].
  - now apply ViewportFacts.handleMouseDown_at_min_scale.
  - unfold handleMouseMove. now rewrite Hd.
  - unfold handleMouseUpOrLeave. rewrite <- Hd. apply setIsDragging_same.
  - unfold handleMouseUpOrLeave. rewrite <- Hd. apply setIsDragging_same.
Qed.

(** X2. At the minimum scale, with no drag session on record, mouse events
    alone (down, move, up, leave) leave the whole state as it is: the mouse
    cannot pan an image that is not zoomed in. *)
Theorem mouse_cannot_pan_at_min_scale (tr : list (Props * Event))
  (s : State) :
  scale s <= MIN_SCALE ->
  isDragging s = false ->
  Forall (fun pe => is_mouse (snd pe) = true) tr ->
  run Math_sqrt tr s = s.
Proof.
  intros Hs Hd Hall. induction tr as [|[p e] tr IH].
  - reflexivity.
  - inversion Hall as [|pe tr' He Hrest]; subst. cbn in He.
    rewrite run_cons, (mouse_at_min_scale_no_op p e s Hs Hd He).
    now apply IH.
Qed.

(** *** A mouse drag *)

Lemma mouseMoves_during_drag (p : Props) (pts : list (Q * Q)) (s : State) :
  blocked p = false -> isDragging s = true ->
  let s' := run Math_sqrt (mouseMoves p pts) s in
  isDragging s' = true /\ startPosRef s' = startPosRef s /\
  scale s' = scale s /\ rotation s' = rotation s.
Proof.
  intros Hp. revert s. induction pts as [|[x y] pts IH]; intros s Hd.
  - repeat split; assumption.
  - unfold mouseMoves. cbn [map fst snd]. fold (mouseMoves p pts).
    rewrite run_cons. cbn [dispatch].
    assert (Hmove : handleMouseMove p x y s
                    = setPosition
                        (Position.mk
                           (StartPos.posX (startPosRef s)
                            + (x - StartPos.x (startPosRef s)))
                           (StartPos.posY (startPosRef s)
                            + (y - StartPos.y (startPosRef s)))) s).
    { unfold handleMouseMove. now rewrite Hd, Hp. }
    rewrite Hmove.
    destruct (IH (setPosition
                    (Position.mk
                       (StartPos.posX (startPosRef s)
                        + (x - StartPos.x (startPosRef s)))
                       (StartPos.posY (startPosRef s)
                        + (y - StartPos.y (startPosRef s)))) s) Hd)
      as (H1 & H2 & H3 & H4).
    repeat split; assumption.
Qed.

(** X3. After an accepted mouse-down at (x0, y0) (image bound, not loading,
    scale above the minimum), any series of mouse moves ending at (xl, yl)
    leaves the translation at its value at mouse-down plus
    (xl - x0, yl - y0), whatever the moves in between; scale and rotation are
    untouched.  After the mouse is released or leaves, a further move changes
    nothing. *)
Theorem drag_follows_pointer (p : Props) (x0 y0 : Q) (pts : list (Q * Q))
  (xl yl : Q) (s : State) :
  blocked p = false ->
  MIN_SCALE < scale s ->
  let s' :=
    run Math_sqrt
      ((p, MouseDown x0 y0) :: mouseMoves p pts ++ [(p, MouseMove xl yl)]) s in
  position s'
    = Position.mk (Position.x (position s) + (xl - x0))
                  (Position.y (position s) + (yl - y0)) /\
  scale s' = scale s /\
  rotation s' = rotation s /\
  forall (p' : Props) (x y : Q),
    run Math_sqrt [(p', MouseUp); (p', MouseMove x y)] s'
    = handleMouseUpOrLeave s'.
Proof.
  intros Hp Hs s'. subst s'. rewrite run_cons, run_app. cbn [dispatch].
  assert (Hdown : handleMouseDown p x0 y0 s
                  = setStartPosRef
                      (StartPos.mk x0 y0 (Position.x (position s))
                         (Position.y (position s)))
                      (setIsDragging true s)).
  { unfold handleMouseDown. rewrite Hp.
    assert (E : Qle_bool (scale s) MIN_SCALE = false)
      by (apply JSFacts.leb_gt; exact Hs).
    now rewrite E. }
  rewrite Hdown.
  set (s1 := setStartPosRef _ _).
  destruct (mouseMoves_during_drag p pts s1 Hp eq_refl) as (Hd & Hsp & Hsc & Hr).
  set (s2 := run Math_sqrt (mouseMoves p pts) s1) in *.
  rewrite run_cons, run_nil. cbn [dispatch]. unfold handleMouseMove.
  rewrite Hd, Hp. cbn [negb orb]. rewrite Hsp.
  split; [reflexivity|]. split; [exact Hsc|]. split; [exact Hr|].
  intros p' x y. reflexivity.
Qed.

(** *** A pinch *)

Lemma touchMoves_during_pinch (p : Props) (ms : list (list Touch.t))
  (s : State) :
  blocked p = false ->
  Forall (fun m => List.length m = 2%nat) ms ->
  let s' := run Math_sqrt (touchMoves p ms) s in
  pinchDistRef s' = pinchDistRef s /\ pinchScaleRef s' = pinchScaleRef s /\
  isDragging s' = isDragging s /\ startPosRef s' = startPosRef s.
Proof.
  intros Hp Hall. revert s. induction Hall as [|m ms Hm Hms IH]; intros s.
  - repeat split.
  - unfold touchMoves. cbn [map]. fold (touchMoves p ms).
    rewrite run_cons. cbn [dispatch].
    destruct (IH (handleTouchMove Math_sqrt p m s)) as (H1 & H2 & H3 & H4).
    cbn zeta. rewrite H1, H2, H3, H4. unfold handleTouchMove.
    rewrite Hp, Hm. cbn [Nat.eqb andb].
    destruct (JS.gtb (pinchDistRef s) 0); [|repeat split].
    destruct (Qeq_bool _ _); repeat split.
Qed.

(** X4. A pinch is measured from its start.  After a touch-start with two
    contacts a positive distance d0 apart, at scale s0, any series of
    two-contact moves ending with the contacts d apart leaves the scale at
    s0 * d / d0 clamped to [1, 8], whatever the moves in between. *)
Theorem pinch_scale_from_start (p : Props) (t0 : list Touch.t)
  (ms : list (list Touch.t)) (ml : list Touch.t) (s : State) :
  blocked p = false ->
  List.length t0 = 2%nat ->
  Forall (fun m => List.length m = 2%nat) ms ->
  List.length ml = 2%nat ->
  0 < getDist Math_sqrt t0 ->
  let s' :=
    run Math_sqrt
      ((p, TouchStart t0) :: touchMoves p ms ++ [(p, TouchMove ml)]) s in
  scale s'
  == clampScale (scale s * (getDist Math_sqrt ml / getDist Math_sqrt t0)).
Proof.
  intros Hp H0 Hms Hl Hd s'. subst s'. rewrite run_cons, run_app.
  cbn [dispatch].
  assert (Hstart : handleTouchStart Math_sqrt p t0 s
                   = setIsDragging false
                       (setPinchScaleRef (scale s)
                          (setPinchDistRef (getDist Math_sqrt t0) s))).
  { unfold handleTouchStart. rewrite Hp, H0. reflexivity. }
  rewrite Hstart. set (s1 := setIsDragging _ _).
  destruct (touchMoves_during_pinch p ms s1 Hp Hms) as (Hpd & Hps & _ & _).
  set (s2 := run Math_sqrt (touchMoves p ms) s1) in *.
  rewrite run_cons, run_nil. cbn [dispatch]. unfold handleTouchMove.
  rewrite Hp, Hl, Hpd, Hps. cbn [Nat.eqb andb pinchDistRef pinchScaleRef s1
    setIsDragging setPinchScaleRef setPinchDistRef].
  apply JSFacts.ltb_lt in Hd. unfold JS.gtb. rewrite Hd.
  fold (clampScale (scale s * (getDist Math_sqrt ml / getDist Math_sqrt t0))).
  destruct (Qeq_bool _ MIN_SCALE) eqn:E; cbn.
  - apply Qeq_bool_iff in E. symmetry. exact E.
  - reflexivity.
Qed.

(** X5. A pinch whose first two contacts are no distance apart is ignored:
    the two-contact moves that follow leave the whole state as the
    touch-start left it, and nothing is divided by the zero distance. *)
Theorem degenerate_pinch_ignored (p : Props) (t0 : list Touch.t)
  (ms : list (list Touch.t)) (s : State) :
  blocked p = false ->
  List.length t0 = 2%nat ->
  Forall (fun m => List.length m = 2%nat) ms ->
  getDist Math_sqrt t0 <= 0 ->
  run Math_sqrt ((p, TouchStart t0) :: touchMoves p ms) s
  = handleTouchStart Math_sqrt p t0 s.
Proof.
  intros Hp H0 Hms Hd. rewrite run_cons. cbn [dispatch].
  assert (Hpd : pinchDistRef (handleTouchStart Math_sqrt p t0 s)
                = getDist Math_sqrt t0).
  { unfold handleTouchStart. rewrite Hp, H0. reflexivity. }
  assert (Hdr : isDragging (handleTouchStart Math_sqrt p t0 s) = false).
  { unfold handleTouchStart. rewrite Hp, H0. reflexivity. }
  generalize dependent (handleTouchStart Math_sqrt p t0 s).
  induction Hms as [|m ms Hm Hms IH]; intros s1 Hpd Hdr.
  - reflexivity.
  - unfold touchMoves. cbn [map]. fold (touchMoves p ms).
    rewrite run_cons. cbn [dispatch].
    assert (E : handleTouchMove Math_sqrt p m s1 = s1).
    { unfold handleTouchMove. rewrite Hp, Hm, Hpd. cbn [Nat.eqb andb].
      apply JSFacts.ltb_ge in Hd. unfold JS.gtb. now rewrite Hd. }
    rewrite E. now apply IH.
Qed.

(** X6. When a touch ends and one contact remains at (tx, ty), moving that
    contact to (tx', ty') translates the image by (tx' - tx, ty' - ty) from
    where it was, so a contact that has not moved does not make the image
    jump; scale and rotation are untouched. *)
Theorem touch_end_reanchors_drag (p : Props) (t t' : Touch.t) (s : State) :
  blocked p = false ->
  let s' := run Math_sqrt [(p, TouchEnd [t]); (p, TouchMove [t'])] s in
  position s'
    = Position.mk
        (Position.x (position s) + (Touch.clientX t' - Touch.clientX t))
        (Position.y (position s) + (Touch.clientY t' - Touch.clientY t)) /\
  scale s' = scale s /\ rotation s' = rotation s.
Proof.
  intros Hp. cbn. unfold handleTouchMove. rewrite Hp. cbn.
  repeat split.
Qed.

(** *** The control bar *)

(** X11. In every state the viewport can reach, the zoom-out button is
    disabled exactly when the scale is 1, the zoom-in button exactly when it
    is 8, the reset button exactly when the transform is the identity, and
    the cursor is the default one exactly when the scale is 1. *)
Theorem controls_match_transform (tr : list (Props * Event)) :
  let s := run Math_sqrt tr initial in
  (zoomOutDisabled s = true <-> scale s == MIN_SCALE) /\
  (zoomInDisabled s = true <-> scale s == MAX_SCALE) /\
  (resetDisabled s = true <->
   scale s == MIN_SCALE /\ Position.x (position s) == 0 /\
   Position.y (position s) == 0 /\ rotation s = 0%Z) /\
  (cursorStyle s = "default"%string <-> scale s == MIN_SCALE).
Proof.
  intros s.
  assert (Hok : scale_ok s).
  { apply ViewportFacts.run_scale_ok.
    unfold scale_ok, MIN_SCALE, MAX_SCALE. cbn. lra. }
  destruct Hok as [Hlo Hhi].
  unfold zoomOutDisabled, zoomInDisabled, resetDisabled, cursorStyle.
  unfold MIN_SCALE, MAX_SCALE in *.
  split; [|split; [|split]].
  - rewrite Qle_bool_iff. split; intro H; lra.
  - rewrite Qle_bool_iff. split; intro H; lra.
  - rewrite !andb_true_iff, Qle_bool_iff, !Qeq_bool_iff, Z.eqb_eq.
    split.
    + intros [[[H1 H2] H3] H4]. repeat split; try assumption; lra.
    + intros (H1 & H2 & H3 & H4). repeat split; try assumption; lra.
  - destruct (JS.gtb (scale s) 1) eqn:E; unfold JS.gtb in E; reflect_tests.
    + split; [|intro H; lra].
      destruct (isDragging s); discriminate.
    + split; [intros _; lra | reflexivity].
Qed.

End Host.

(** *** The theorems above on runs *)

(** The props of a bound image that is not loading, and of one that is. *)
Lemma blocked_gestures_keep_transform_witness :
  let loading := mkProps (Some "blob:figure"%string) true in
  let tr := [ (loading, Wheel (-120)); (loading, MouseDown 10 10);
              (loading, MouseMove 50 60); (loading, MouseUp);
              (loading, TouchStart [Touch.mk 0 0; Touch.mk 30 40]);
              (loading, TouchMove [Touch.mk 0 0; Touch.mk 60 80]);
              (loading, TouchEnd []) ] in
  Forall (fun pe => blocked (fst pe) = true /\ is_gesture (snd pe) = true) tr /\
  transform (run JS.isqrt tr initial) = transform initial.
Proof.
  intros loading tr.
  assert (H : Forall (fun pe => blocked (fst pe) = true
                                /\ is_gesture (snd pe) = true) tr)
    by (repeat constructor).
  split; [exact H|].
  exact (blocked_gestures_keep_transform JS.isqrt tr initial H).
Defined.

Lemma mouse_cannot_pan_at_min_scale_witness :
  let p := mkProps (Some "blob:figure"%string) false in
  let tr := [ (p, MouseDown 10 10); (p, MouseMove 50 60); (p, MouseUp);
              (p, MouseMove 70 80); (p, MouseLeave) ] in
  (scale initial <= MIN_SCALE /\ isDragging initial = false /\
   Forall (fun pe => is_mouse (snd pe) = true) tr) /\
  run JS.isqrt tr initial = initial.
Proof.
  intros p tr.
  assert (Hs : scale initial <= MIN_SCALE) by (cbn; unfold MIN_SCALE; lra).
  assert (Hd : isDragging initial = false) by reflexivity.
  assert (H : Forall (fun pe => is_mouse (snd pe) = true) tr)
    by (repeat constructor).
  split; [split; [exact Hs | split; [exact Hd | exact H]]|].
  exact (mouse_cannot_pan_at_min_scale JS.isqrt tr initial Hs Hd H).
Defined.

(** A drag from (100, 100) by way of (400, 20) to (130, 140), at scale 2. *)
Lemma drag_follows_pointer_witness :
  let p := mkProps (Some "blob:figure"%string) false in
  let s := run JS.isqrt [(p, ClickZoomIn); (p, ClickZoomIn)] initial in
  let s' := run JS.isqrt
              ((p, MouseDown 100 100) :: mouseMoves p [(400, 20)]
               ++ [(p, MouseMove 130 140)]) s in
  (blocked p = false /\ MIN_SCALE < scale s) /\
  position s'
    = Position.mk (Position.x (position s) + (130 - 100))
                  (Position.y (position s) + (140 - 100)).
Proof.
  intros p s s'.
  assert (Hp : blocked p = false) by reflexivity.
  assert (Hs : MIN_SCALE < scale s) by reflexivity.
  split; [split; assumption|].
  exact (proj1 (drag_follows_pointer JS.isqrt p 100 100 [(400, 20)] 130 140 s
                  Hp Hs)).
Defined.

(** A pinch begun 100 apart at scale 2 and opened to 150 by way of 50: the
    scale is 3. *)
Lemma pinch_scale_from_start_witness :
  let p := mkProps (Some "blob:figure"%string) false in
  let s := run JS.isqrt [(p, ClickZoomIn); (p, ClickZoomIn)] initial in
  let t0 := [Touch.mk 0 0; Touch.mk 60 80] in
  let ms := [[Touch.mk 0 0; Touch.mk 30 40]] in
  let ml := [Touch.mk 0 0; Touch.mk 90 120] in
  let s' := run JS.isqrt
              ((p, TouchStart t0) :: touchMoves p ms ++ [(p, TouchMove ml)])
              s in
  (blocked p = false /\ List.length t0 = 2%nat /\
   Forall (fun m => List.length m = 2%nat) ms /\ List.length ml = 2%nat /\
   0 < getDist JS.isqrt t0) /\
  scale s == 2 /\
  clampScale (scale s * (getDist JS.isqrt ml / getDist JS.isqrt t0)) == 3 /\
  scale s'
  == clampScale (scale s * (getDist JS.isqrt ml / getDist JS.isqrt t0)).
Proof.
  intros p s t0 ms ml s'.
  assert (Hp : blocked p = false) by reflexivity.
  assert (H0 : List.length t0 = 2%nat) by reflexivity.
  assert (Hms : Forall (fun m => List.length m = 2%nat) ms)
    by (repeat constructor).
  assert (Hl : List.length ml = 2%nat) by reflexivity.
  assert (Hd : 0 < getDist JS.isqrt t0) by reflexivity.
  split; [repeat split; assumption|].
  split; [reflexivity|]. split; [reflexivity|].
  exact (pinch_scale_from_start JS.isqrt p t0 ms ml s Hp H0 Hms Hl Hd).
Defined.

(** Two contacts put down on the same point. *)
Lemma degenerate_pinch_ignored_witness :
  let p := mkProps (Some "blob:figure"%string) false in
  let t0 := [Touch.mk 50 50; Touch.mk 50 50] in
  let ms := [[Touch.mk 0 0; Touch.mk 90 120]] in
  (blocked p = false /\ List.length t0 = 2%nat /\
   Forall (fun m => List.length m = 2%nat) ms /\
   getDist JS.isqrt t0 <= 0) /\
  run JS.isqrt ((p, TouchStart t0) :: touchMoves p ms) initial
  = handleTouchStart JS.isqrt p t0 initial.
Proof.
  intros p t0 ms.
  assert (Hp : blocked p = false) by reflexivity.
  assert (H0 : List.length t0 = 2%nat) by reflexivity.
  assert (Hms : Forall (fun m => List.length m = 2%nat) ms)
    by (repeat constructor).
  assert (Hd : getDist JS.isqrt t0 <= 0) by (vm_compute; discriminate).
  split; [repeat split; assumption|].
  exact (degenerate_pinch_ignored JS.isqrt p t0 ms initial Hp H0 Hms Hd).
Defined.

Lemma touch_end_reanchors_drag_witness :
  let p := mkProps (Some "blob:figure"%string) false in
  let s := run JS.isqrt [(p, ClickZoomIn); (p, MouseDown 0 0);
                         (p, MouseMove 25 35); (p, MouseUp)] initial in
  let t := Touch.mk 100 100 in
  blocked p = false /\
  position (run JS.isqrt [(p, TouchEnd [t]); (p, TouchMove [t])] s)
  = Position.mk (Position.x (position s) + (100 - 100))
                (Position.y (position s) + (100 - 100)).
Proof.
  intros p s t.
  assert (Hp : blocked p = false) by reflexivity.
  split; [exact Hp|].
  exact (proj1 (touch_end_reanchors_drag JS.isqrt p t t s Hp)).
Defined.

Lemma wheel_is_zoom_button_witness :
  let p := mkProps (Some "blob:figure"%string) false in
  (blocked p = false /\ scale_ok initial) /\
  handleWheel p (-120) initial = zoomIn initial.
Proof.
  intros p.
  assert (Hp : blocked p = false) by reflexivity.
  assert (Hs : scale_ok initial)
    by (unfold scale_ok, MIN_SCALE, MAX_SCALE; cbn; lra).
  split; [split; assumption|].
  exact (wheel_is_zoom_button p (-120) initial Hp Hs).
Defined.

Lemma repeated_zoomIn_witness :
  scale initial <= MAX_SCALE /\
  scale (Nat.iter 3 zoomIn initial)
  == JS.Math_min MAX_SCALE (scale initial + inject_Z (Z.of_nat 3) * SCALE_STEP).
Proof.
  assert (Hs : scale initial <= MAX_SCALE)
    by (unfold MAX_SCALE; cbn; lra).
  split; [exact Hs|].
  exact (proj1 (repeated_zoomIn 3 initial Hs)).
Defined.

Lemma repeated_zoomOut_witness :
  let s := Nat.iter 3 zoomIn initial in
  MIN_SCALE <= scale s /\
  scale (Nat.iter 2 zoomOut s)
  == JS.Math_max MIN_SCALE (scale s - inject_Z (Z.of_nat 2) * SCALE_STEP).
Proof.
  intros s.
  assert (Hs : MIN_SCALE <= scale s) by (vm_compute; discriminate).
  split; [exact Hs|].
  exact (proj1 (repeated_zoomOut 2 s Hs)).
Defined.

Lemma zoom_in_then_out_witness :
  let s := Nat.iter 3 zoomIn initial in
  (MIN_SCALE < scale s /\ scale s <= 7.5) /\
  scale (zoomOut (zoomIn s)) == scale s.
Proof.
  intros s.
  assert (H1 : MIN_SCALE < scale s) by reflexivity.
  assert (H2 : scale s <= 7.5) by (vm_compute; discriminate).
  split; [split; assumption|].
  exact (proj1 (proj1 (zoom_in_then_out s) H1 H2)).
Defined.

End ViewportMore.

(** ** The crop rectangle: layout, handles and export *)

Module CropMore.
Import ImageCropper.

Ltac halves := unfold Qdiv in *; change (/ 2) with (1 # 2) in *.

(** *** The fitted box *)

Lemma quotient_facts (n d : Q) :
  0 < n -> 0 < d -> 0 < n / d /\ n / d * d == n.
Proof.
  intros Hn Hd. split.
  - apply Qlt_shift_div_l; lra.
  - field. lra.
Qed.

(** The fitted box has the image's aspect ratio. *)
Lemma fitted_box_ratio (c : Container) (img : Image) (s : State) :
  0 < naturalWidth img -> 0 < naturalHeight img ->
  let box := imageSize (onImageLoad (Some c) (Some img) s) in
  ImageSize.width box * naturalHeight img
    == ImageSize.height box * naturalWidth img.
Proof.
  intros Hnw Hnh box. subst box. unfold onImageLoad.
  destruct (quotient_facts _ _ Hnw Hnh) as [Hr Er].
  destruct (JS.gtb _ _); cbn [imageSize setImageSize ImageSize.width
    ImageSize.height]; field; lra.
Qed.

(** X12. For a container and an image of positive dimensions, the fitted box
    has the image's aspect ratio, lies inside the container, and spans the
    full width or the full height of the container. *)
Theorem fitted_box_letterbox (c : Container) (img : Image) (s : State) :
  0 < clientWidth c -> 0 < clientHeight c ->
  0 < naturalWidth img -> 0 < naturalHeight img ->
  let box := imageSize (onImageLoad (Some c) (Some img) s) in
  ImageSize.width box * naturalHeight img
    == ImageSize.height box * naturalWidth img /\
  0 <= ImageSize.left box /\
  0 <= ImageSize.top box /\
  ImageSize.left box + ImageSize.width box <= clientWidth c /\
  ImageSize.top box + ImageSize.height box <= clientHeight c /\
  (ImageSize.width box == clientWidth c \/
   ImageSize.height box == clientHeight c).
Proof.
  intros Hcw Hch Hnw Hnh box. subst box. unfold onImageLoad.
  destruct c as [cw ch], img as [nw nh]. cbn [clientWidth clientHeight
    naturalWidth naturalHeight] in *.
  destruct (quotient_facts nw nh Hnw Hnh) as [Hr Er].
  destruct (quotient_facts cw ch Hcw Hch) as [Hq Eq].
  set (r := nw / nh) in *. set (q := cw / ch) in *.
  destruct (JS.gtb r q) eqn:E; unfold JS.gtb in E; reflect_tests;
    cbn [imageSize setImageSize ImageSize.width ImageSize.height
         ImageSize.left ImageSize.top].
  - destruct (CropFacts.inverse_facts r Hr) as [Hi Eri].
    unfold Qdiv. change (/ 2) with (1 # 2).
    set (i := / r) in *. clearbody i r q.
    assert (Hh : cw * i * r == cw).
    { rewrite <- Qmult_assoc, (Qmult_comm i r), Eri. ring. }
    assert (Hle : cw * i < ch) by nra.
    repeat split; try lra.
    rewrite <- Er. rewrite <- Hh at 1. ring.
  - halves. clearbody r q.
    assert (Hle : ch * r <= cw) by nra.
    repeat split; try lra.
    rewrite <- Er. ring.
Qed.

Lemma loaded_is_fitted (p : Props) (c : Container) (img : Image) :
  loaded p (Some c) (Some img)
  = fitted p (imageSize (onImageLoad (Some c) (Some img) initial)).
Proof.
  unfold loaded, fitted, onImageLoad. destruct (JS.gtb _ _); reflexivity.
Qed.

(** The invariant of the session that follows the layout of [img] in [c]. *)
Lemma loaded_session_inv (p : Props) (c : Container) (img : Image)
  (evs : list Event) :
  0 < aspectRatioValue p ->
  0 < clientWidth c -> 0 < clientHeight c ->
  0 < naturalWidth img -> 0 < naturalHeight img ->
  session_inv p (imageSize (onImageLoad (Some c) (Some img) initial))
    (run p evs (loaded p (Some c) (Some img))).
Proof.
  intros Ha Hcw Hch Hnw Hnh. rewrite loaded_is_fitted.
  destruct (CropFacts.onImageLoad_positive c img initial Hcw Hch Hnw Hnh)
    as [HW HH].
  apply CropFacts.run_session_inv; [exact Ha|].
  now apply CropFacts.initCrop_session_inv.
Qed.

(** *** Export after a session *)

Lemma handleSave_some (img : Image) (s : State) :
  exists ex : Export,
    handleSave (Some img) true s = Some ex /\
    sx (drawImage ex)
      = (Rect.x (crop s) - ImageSize.left (imageSize s))
        * (naturalWidth img / ImageSize.width (imageSize s)) /\
    sy (drawImage ex)
      = (Rect.y (crop s) - ImageSize.top (imageSize s))
        * (naturalHeight img / ImageSize.height (imageSize s)) /\
    sWidth (drawImage ex)
      = Rect.width (crop s)
        * (naturalWidth img / ImageSize.width (imageSize s)) /\
    sHeight (drawImage ex)
      = Rect.height (crop s)
        * (naturalHeight img / ImageSize.height (imageSize s)).
Proof.
  unfold handleSave. eexists. split; [reflexivity|]. cbn. repeat split.
Qed.

(** The crop of a session, mapped to natural pixels, lies inside the natural
    image and has positive sides. *)
Lemma mapped_crop_inside (p : Props) (c : Container) (img : Image)
  (evs : list Event) :
  0 < aspectRatioValue p ->
  0 < clientWidth c -> 0 < clientHeight c ->
  0 < naturalWidth img -> 0 < naturalHeight img ->
  let s := run p evs (loaded p (Some c) (Some img)) in
  let scaleX := naturalWidth img / ImageSize.width (imageSize s) in
  let scaleY := naturalHeight img / ImageSize.height (imageSize s) in
  (0 <= (Rect.x (crop s) - ImageSize.left (imageSize s)) * scaleX /\
   0 <= (Rect.y (crop s) - ImageSize.top (imageSize s)) * scaleY /\
   (Rect.x (crop s) - ImageSize.left (imageSize s)) * scaleX
   + Rect.width (crop s) * scaleX <= naturalWidth img /\
   (Rect.y (crop s) - ImageSize.top (imageSize s)) * scaleY
   + Rect.height (crop s) * scaleY <= naturalHeight img) /\
  0 < Rect.width (crop s) * scaleX /\
  0 < Rect.height (crop s) * scaleY.
Proof.
  intros Ha Hcw Hch Hnw Hnh s scaleX scaleY. subst scaleX scaleY.
  destruct (loaded_session_inv p c img evs Ha Hcw Hch Hnw Hnh)
    as [Hbox Hasp Hin Hh].
  fold s in Hbox, Hasp, Hin, Hh. unfold aspect_locked in Hasp.
  destruct (CropFacts.onImageLoad_positive c img initial Hcw Hch Hnw Hnh)
    as [HW HH].
  rewrite <- Hbox in Hin, HW, HH.
  destruct Hin as (Hl & Ht & Hr & Hb).
  destruct (CropFacts.inverse_facts _ HW) as [HiW EW].
  destruct (CropFacts.inverse_facts _ HH) as [HiH EH].
  unfold Qdiv.
  set (iW := / ImageSize.width (imageSize s)) in *.
  set (iH := / ImageSize.height (imageSize s)) in *.
  set (W := ImageSize.width (imageSize s)) in *.
  set (H := ImageSize.height (imageSize s)) in *.
  set (L := ImageSize.left (imageSize s)) in *.
  set (T := ImageSize.top (imageSize s)) in *.
  set (x := Rect.x (crop s)) in *. set (y := Rect.y (crop s)) in *.
  set (w := Rect.width (crop s)) in *. set (h := Rect.height (crop s)) in *.
  set (nw := naturalWidth img) in *. set (nh := naturalHeight img) in *.
  set (a := aspectRatioValue p) in *.
  clearbody iW iH W H L T x y w h nw nh a.
  assert (HkW : 0 < nw * iW) by nra.
  assert (HkH : 0 < nh * iH) by nra.
  assert (EkW : W * (nw * iW) == nw) by (rewrite Qmult_comm, <- Qmult_assoc,
    (Qmult_comm iW W), EW; ring).
  assert (EkH : H * (nh * iH) == nh) by (rewrite Qmult_comm, <- Qmult_assoc,
    (Qmult_comm iH H), EH; ring).
  assert (Hw : 0 < w) by nra.
  set (kW := nw * iW) in *. set (kH := nh * iH) in *. clearbody kW kH.
  repeat split; nra.
Qed.

(** X13. After the image is laid out and after any crop session, the source
    rectangle that [handleSave] passes to [drawImage] lies inside the natural
    image: it never reads outside the picture. *)
Theorem export_source_inside_image (p : Props) (c : Container) (img : Image)
  (evs : list Event) :
  0 < aspectRatioValue p ->
  0 < clientWidth c -> 0 < clientHeight c ->
  0 < naturalWidth img -> 0 < naturalHeight img ->
  let s := run p evs (loaded p (Some c) (Some img)) in
  exists ex : Export,
    handleSave (Some img) true s = Some ex /\
    0 <= sx (drawImage ex) /\
    0 <= sy (drawImage ex) /\
    sx (drawImage ex) + sWidth (drawImage ex) <= naturalWidth img /\
    sy (drawImage ex) + sHeight (drawImage ex) <= naturalHeight img.
Proof.
  intros Ha Hcw Hch Hnw Hnh s.
  destruct (mapped_crop_inside p c img evs Ha Hcw Hch Hnw Hnh)
    as [Hin _].
  fold s in Hin.
  destruct (handleSave_some img s) as (ex & Hex & Ex & Ey & Ew & Eh).
  exists ex. split; [exact Hex|]. rewrite Ex, Ey, Ew, Eh. exact Hin.
Qed.

(** The crop of a session, mapped to natural pixels, keeps the ratio. *)
Lemma mapped_crop_ratio (p : Props) (c : Container) (img : Image)
  (evs : list Event) :
  0 < aspectRatioValue p ->
  0 < clientWidth c -> 0 < clientHeight c ->
  0 < naturalWidth img -> 0 < naturalHeight img ->
  let s := run p evs (loaded p (Some c) (Some img)) in
  Rect.width (crop s) * (naturalWidth img / ImageSize.width (imageSize s))
  / (Rect.height (crop s)
     * (naturalHeight img / ImageSize.height (imageSize s)))
  == aspectRatioValue p.
Proof.
  intros Ha Hcw Hch Hnw Hnh s.
  destruct (loaded_session_inv p c img evs Ha Hcw Hch Hnw Hnh)
    as [Hbox Hasp _ Hh].
  fold s in Hbox, Hasp, Hh.
  destruct (CropFacts.onImageLoad_positive c img initial Hcw Hch Hnw Hnh)
    as [HW HH].
  pose proof (fitted_box_ratio c img initial Hnw Hnh) as Hratio.
  cbn zeta in Hratio.
  rewrite <- Hbox in HW, HH, Hratio.
  unfold aspect_locked in Hasp.
  rewrite Hasp.
  assert (Ek : naturalWidth img / ImageSize.width (imageSize s)
               == naturalHeight img / ImageSize.height (imageSize s)).
  { apply (Qmult_inj_r _ _ (ImageSize.width (imageSize s)
                            * ImageSize.height (imageSize s))); [nra|].
    transitivity (naturalWidth img * ImageSize.height (imageSize s));
      [field; lra|].
    transitivity (naturalHeight img * ImageSize.width (imageSize s));
      [lra | field; lra]. }
  rewrite Ek. field. repeat split; lra.
Qed.


(** *** Handles *)

Lemma clamp_inside (a : Q) (box : ImageSize.t) (r : Rect.t) :
  within box r -> clamp a box r = r.
Proof.
  unfold within, clamp. intros (Hl & Ht & Hr & Hb).
  destruct r as [x y w h], box as [W H L T]. cbn in *.
  assert (Ex : JS.Math_max L x = x).
  { destruct (JSFacts.Math_max_cases L x) as [[_ E] | [Hlt _]];
      [exact E | lra]. }
  assert (Ey : JS.Math_max T y = y).
  { destruct (JSFacts.Math_max_cases T y) as [[_ E] | [Hlt _]];
      [exact E | lra]. }
  rewrite Ex, Ey.
  assert (Er : JS.gtb (x + w) (L + W) = false) by (apply JSFacts.ltb_ge; lra).
  assert (Eb : JS.gtb (y + h) (T + H) = false) by (apply JSFacts.ltb_ge; lra).
  rewrite Er. cbn. rewrite Eb. reflexivity.
Qed.

Lemma updateCrop_inside (a : Q) (box : ImageSize.t) (ty : option DragHandle)
  (dx dy : Q) (prev : Rect.t) :
  within box (resize a ty dx dy prev) ->
  min_size (resize a ty dx dy prev) ->
  updateCrop a box ty dx dy prev = resize a ty dx dy prev.
Proof.
  intros Hin [Hw Hh]. unfold updateCrop. rewrite (clamp_inside _ _ _ Hin).
  assert (Ew : JS.ltb (Rect.width (resize a ty dx dy prev)) 20 = false)
    by (apply JSFacts.ltb_ge; exact Hw).
  assert (Eh : JS.ltb (Rect.height (resize a ty dx dy prev)) 20 = false)
    by (apply JSFacts.ltb_ge; exact Hh).
  now rewrite Ew, Eh.
Qed.

(** X15. A move event with no displacement leaves an aspect-locked rectangle
    inside the fitted box as it is (field by field, as numbers), whichever
    handle is held. *)
Theorem zero_move_keeps_rect (a : Q) (box : ImageSize.t)
  (ty : option DragHandle) (prev : Rect.t) :
  0 < a ->
  aspect_locked a prev ->
  within box prev ->
  rect_eq (updateCrop a box ty 0 0 prev) prev.
Proof.
  intros Ha Hasp Hin.
  destruct (CropFacts.updateCrop_cases a box ty 0 0 prev)
    as [[_ E] | [_ E]]; rewrite E.
  - unfold rect_eq. repeat split; reflexivity.
  - assert (Hr : rect_eq (resize a ty 0 0 prev) prev).
    { unfold aspect_locked in Hasp. unfold rect_eq.
      destruct prev as [x y w h]. cbn in Hasp.
      assert (Eh : w / a == h) by (rewrite Hasp; field; lra).
      assert (Eh' : (w + 0) / a == h) by (rewrite Hasp; field; lra).
      assert (Eh'' : (w - 0) / a == h) by (rewrite Hasp; field; lra).
      destruct ty as [[]|]; cbn; repeat split;
        rewrite ?Eh, ?Eh', ?Eh''; try lra; rewrite Hasp; ring. }
    assert (Hin' : within box (resize a ty 0 0 prev)).
    { destruct Hr as (E1 & E2 & E3 & E4). unfold within in *.
      rewrite E1, E2, E3, E4. exact Hin. }
    rewrite (clamp_inside _ _ _ Hin'). exact Hr.
Qed.

(** X16. A drag of a resize handle whose candidate rectangle stays inside
    the fitted box and is at least 20 by 20 is committed as it is, and it
    keeps the edges opposite to the handle where they were: the top-left
    corner for [e], [s] and [se]; the right edge and the top for [w] and
    [sw]; the left edge and the bottom for [n] and [ne]; the bottom-right
    corner for [nw]. *)
Theorem resize_handles_anchor_opposite_edges (a : Q) (box : ImageSize.t)
  (h : DragHandle) (dx dy : Q) (prev : Rect.t) :
  let c := resize a (Some h) dx dy prev in
  within box c ->
  min_size c ->
  updateCrop a box (Some h) dx dy prev = c /\
  match h with
  | He | Hs | Hse =>
      Rect.x c == Rect.x prev /\ Rect.y c == Rect.y prev
  | Hw | Hsw =>
      Rect.x c + Rect.width c == Rect.x prev + Rect.width prev /\
      Rect.y c == Rect.y prev
  | Hn | Hne =>
      Rect.x c == Rect.x prev /\
      Rect.y c + Rect.height c == Rect.y prev + Rect.height prev
  | Hnw =>
      Rect.x c + Rect.width c == Rect.x prev + Rect.width prev /\
      Rect.y c + Rect.height c == Rect.y prev + Rect.height prev
  | Hmove => True
  end.
Proof.
  intros c Hin Hmin. split.
  - now apply updateCrop_inside.
  - subst c. clear Hin Hmin. destruct prev as [x y w h0].
    destruct h; cbn; try exact I; split; ring.
Qed.

(** X17. The handles on the top and bottom sides ([n], [s] and the four
    corners) take the vertical displacement only: the horizontal
    displacement of the pointer has no effect on the result.  The [e] and
    [w] handles take the horizontal displacement only. *)
Theorem handles_use_one_axis (a : Q) (box : ImageSize.t) (h : DragHandle)
  (dx dx' dy dy' : Q) (prev : Rect.t) :
  (In h [Hn; Hs; Hne; Hnw; Hse; Hsw] ->
   updateCrop a box (Some h) dx dy prev
   = updateCrop a box (Some h) dx' dy prev) /\
  (In h [He; Hw] ->
   updateCrop a box (Some h) dx dy prev
   = updateCrop a box (Some h) dx dy' prev).
Proof.
  unfold updateCrop. destruct prev as [x y w h0]. split; intros Hh.
  - assert (E : resize a (Some h) dx dy (Rect.mk x y w h0)
                = resize a (Some h) dx' dy (Rect.mk x y w h0)).
    { cbn in Hh.
      destruct Hh as [<- | [<- | [<- | [<- | [<- | [<- | []]]]]]];
        reflexivity. }
    now rewrite E.
  - assert (E : resize a (Some h) dx dy (Rect.mk x y w h0)
                = resize a (Some h) dx dy' (Rect.mk x y w h0)).
    { cbn in Hh. destruct Hh as [<- | [<- | []]]; reflexivity. }
    now rewrite E.
Qed.

(** *** Outside a drag *)

Lemma dispatch_without_press (p : Props) (ev : Event) (s : State) :
  active (dragInfo s) = false -> CropperHost.is_press ev = false ->
  active (dragInfo (dispatch p ev s)) = false /\
  crop (dispatch p ev s) = crop s /\
  imageSize (dispatch p ev s) = imageSize s.
Proof.
  intros Hs Hev. destruct ev as [cx cy ty | cx cy |]; try discriminate Hev;
    cbn [dispatch].
  - unfold handleMouseMove. rewrite Hs. repeat split. exact Hs.
  - repeat split.
Qed.

(** X18. While no drag is active, mouse moves and mouse-ups never change the
    crop rectangle (nor the fitted box): only a mouse-down on a handle opens
    the rectangle to changes. *)
Theorem moves_without_drag_ignored (p : Props) (evs : list Event)
  (s : State) :
  active (dragInfo s) = false ->
  Forall (fun ev => CropperHost.is_press ev = false) evs ->
  crop (run p evs s) = crop s /\ imageSize (run p evs s) = imageSize s.
Proof.
  intros Hs Hall. revert s Hs.
  induction Hall as [|ev evs Hev Hevs IH]; intros s Hs.
  - split; reflexivity.
  - change (run p (ev :: evs) s) with (run p evs (dispatch p ev s)).
    destruct (dispatch_without_press p ev s Hs Hev) as (Ha & Ec & Ei).
    destruct (IH _ Ha) as [E1 E2]. rewrite E1, E2. split; assumption.
Qed.

(** *** The cropper under the application's settings *)

(** X19. Whatever aspect ratio is selected in the settings, the cropper
    opened by the application keeps its rectangle at that ratio (1, 4/3 or
    16/9) and inside the fitted box through any crop session, and exports a
    source rectangle of that ratio. *)
Theorem app_cropper_keeps_selected_ratio (aspectRatio : CropperHost.AspectRatio)
  (c : Container) (img : Image) (evs : list Event) :
  0 < clientWidth c -> 0 < clientHeight c ->
  0 < naturalWidth img -> 0 < naturalHeight img ->
  let p := CropperHost.cropperProps aspectRatio in
  let s := run p evs (loaded p (Some c) (Some img)) in
  let ratio :=
    match aspectRatio with
    | CropperHost.Ratio_1_1 => 1
    | CropperHost.Ratio_4_3 => 4 # 3
    | CropperHost.Ratio_16_9 => 16 # 9
    end in
  Rect.width (crop s) / Rect.height (crop s) == ratio /\
  within (imageSize s) (crop s) /\
  exists ex : Export,
    handleSave (Some img) true s = Some ex /\
    sWidth (drawImage ex) / sHeight (drawImage ex) == ratio.
Proof.
  intros Hcw Hch Hnw Hnh p s ratio.
  assert (Er : aspectRatioValue p == ratio).
  { subst p ratio. destruct aspectRatio; reflexivity. }
  assert (Ha : 0 < aspectRatioValue p).
  { rewrite Er. subst ratio. destruct aspectRatio; reflexivity. }
  destruct (loaded_session_inv p c img evs Ha Hcw Hch Hnw Hnh)
    as [Hbox Hasp Hin Hh].
  fold s in Hbox, Hasp, Hin, Hh.
  split; [|split].
  - unfold aspect_locked in Hasp. rewrite Hasp, <- Er. field. lra.
  - rewrite Hbox. exact Hin.
  - pose proof (mapped_crop_ratio p c img evs Ha Hcw Hch Hnw Hnh) as Hmain.
    cbn zeta in Hmain. fold s in Hmain.
    destruct (handleSave_some img s) as (ex & Hex & _ & _ & Ew & Eh).
    exists ex. split; [exact Hex|]. rewrite Ew, Eh, <- Er. exact Hmain.
Qed.

(** *** The theorems above on runs *)

Lemma fitted_box_letterbox_witness :
  let c := mkContainer 500 500 in
  let img := mkImage 1000 500 in
  let box := imageSize (onImageLoad (Some c) (Some img) initial) in
  (0 < clientWidth c /\ 0 < clientHeight c /\
   0 < naturalWidth img /\ 0 < naturalHeight img) /\
  ImageSize.width box * naturalHeight img
    == ImageSize.height box * naturalWidth img /\
  ImageSize.top box + ImageSize.height box <= clientHeight c.
Proof.
  intros c img box.
  assert (H1 : 0 < clientWidth c) by reflexivity.
  assert (H2 : 0 < clientHeight c) by reflexivity.
  assert (H3 : 0 < naturalWidth img) by reflexivity.
  assert (H4 : 0 < naturalHeight img) by reflexivity.
  split; [repeat split; assumption|].
  pose proof (fitted_box_letterbox c img initial H1 H2 H3 H4) as H.
  cbn zeta in H. fold box in H.
  split; [exact (proj1 H) | exact (proj1 (proj2 (proj2 (proj2 (proj2 H)))))].
Defined.

(** A drag of the east handle on a 1000 x 500 image shown in 500 x 500. *)
Lemma export_source_inside_image_witness :
  let p := mkProps 1 in
  let c := mkContainer 500 500 in
  let img := mkImage 1000 500 in
  let evs := [MouseDown 350 250 He; MouseMove 750 250; MouseUp] in
  let s := run p evs (loaded p (Some c) (Some img)) in
  (0 < aspectRatioValue p /\ 0 < clientWidth c /\ 0 < clientHeight c /\
   0 < naturalWidth img /\ 0 < naturalHeight img) /\
  exists ex : Export,
    handleSave (Some img) true s = Some ex /\
    0 <= sx (drawImage ex) /\
    0 <= sy (drawImage ex) /\
    sx (drawImage ex) + sWidth (drawImage ex) <= naturalWidth img /\
    sy (drawImage ex) + sHeight (drawImage ex) <= naturalHeight img.
Proof.
  intros p c img evs s.
  assert (H0 : 0 < aspectRatioValue p) by reflexivity.
  assert (H1 : 0 < clientWidth c) by reflexivity.
  assert (H2 : 0 < clientHeight c) by reflexivity.
  assert (H3 : 0 < naturalWidth img) by reflexivity.
  assert (H4 : 0 < naturalHeight img) by reflexivity.
  split; [repeat split; assumption|].
  exact (export_source_inside_image p c img evs H0 H1 H2 H3 H4).
Defined.


Lemma zero_move_keeps_rect_witness :
  let box := ImageSize.mk 500 250 0 125 in
  let prev := Rect.mk 150 150 200 100 in
  (0 < 2 /\ aspect_locked 2 prev /\ within box prev) /\
  rect_eq (updateCrop 2 box (Some Hnw) 0 0 prev) prev.
Proof.
  intros box prev.
  assert (Ha : 0 < 2) by reflexivity.
  assert (Hasp : aspect_locked 2 prev) by reflexivity.
  assert (Hin : within box prev) by (vm_compute; repeat split; discriminate).
  split; [split; [exact Ha | split; [exact Hasp | exact Hin]]|].
  exact (zero_move_keeps_rect 2 box (Some Hnw) prev Ha Hasp Hin).
Defined.

(** The north-west handle dragged up by 20 on 200 x 100 at (150, 150): the
    candidate is 240 x 120 at (110, 130), with the same bottom-right
    corner (350, 250). *)
Lemma resize_handles_anchor_opposite_edges_witness :
  let box := ImageSize.mk 500 250 0 125 in
  let prev := Rect.mk 150 150 200 100 in
  let c := resize 2 (Some Hnw) 7 (-20) prev in
  (within box c /\ min_size c) /\
  rect_eq c (Rect.mk 110 130 240 120) /\
  updateCrop 2 box (Some Hnw) 7 (-20) prev = c /\
  Rect.x c + Rect.width c == Rect.x prev + Rect.width prev /\
  Rect.y c + Rect.height c == Rect.y prev + Rect.height prev.
Proof.
  intros box prev c.
  assert (Hin : within box c) by (vm_compute; repeat split; discriminate).
  assert (Hmin : min_size c) by (vm_compute; repeat split; discriminate).
  split; [split; assumption|].
  split; [vm_compute; repeat split|].
  exact (resize_handles_anchor_opposite_edges 2 box Hnw 7 (-20) prev Hin Hmin).
Defined.

Lemma handles_use_one_axis_witness :
  let box := ImageSize.mk 500 250 0 125 in
  let prev := Rect.mk 150 150 200 100 in
  In Hse [Hn; Hs; Hne; Hnw; Hse; Hsw] /\
  updateCrop 2 box (Some Hse) 40 10 prev
  = updateCrop 2 box (Some Hse) (-300) 10 prev.
Proof.
  intros box prev.
  assert (Hh : In Hse [Hn; Hs; Hne; Hnw; Hse; Hsw])
    by (right; right; right; right; left; reflexivity).
  split; [exact Hh|].
  exact (proj1 (handles_use_one_axis 2 box Hse 40 (-300) 10 0 prev) Hh).
Defined.

Lemma moves_without_drag_ignored_witness :
  let p := mkProps 1 in
  let s := run p [MouseDown 350 250 He; MouseMove 360 250; MouseUp]
             (fitted p (ImageSize.mk 500 250 0 125)) in
  let evs := [MouseMove 10 10; MouseUp; MouseMove 400 300] in
  (active (dragInfo s) = false /\
   Forall (fun ev => CropperHost.is_press ev = false) evs) /\
  crop (run p evs s) = crop s /\ imageSize (run p evs s) = imageSize s.
Proof.
  intros p s evs.
  assert (Hs : active (dragInfo s) = false) by reflexivity.
  assert (Hall : Forall (fun ev => CropperHost.is_press ev = false) evs)
    by (repeat constructor).
  split; [split; assumption|].
  exact (moves_without_drag_ignored p evs s Hs Hall).
Defined.

Lemma app_cropper_keeps_selected_ratio_witness :
  let c := mkContainer 800 600 in
  let img := mkImage 1200 1200 in
  let evs := [MouseDown 350 250 Hse; MouseMove 360 270; MouseUp] in
  let p := CropperHost.cropperProps CropperHost.Ratio_4_3 in
  let s := run p evs (loaded p (Some c) (Some img)) in
  (0 < clientWidth c /\ 0 < clientHeight c /\
   0 < naturalWidth img /\ 0 < naturalHeight img) /\
  Rect.width (crop s) / Rect.height (crop s) == 4 # 3.
Proof.
  intros c img evs p s.
  assert (H1 : 0 < clientWidth c) by reflexivity.
  assert (H2 : 0 < clientHeight c) by reflexivity.
  assert (H3 : 0 < naturalWidth img) by reflexivity.
  assert (H4 : 0 < naturalHeight img) by reflexivity.
  split; [repeat split; assumption|].
  exact (proj1 (app_cropper_keeps_selected_ratio CropperHost.Ratio_4_3 c img
                  evs H1 H2 H3 H4)).
Defined.

End CropMore.

(** ** Undo and redo *)

Module HistoryFacts.
Import HistoryState.

Section Hook.

Variable T : Type.
Variable JSON_stringify : T -> string.

Local Abbreviation setState := (setState T JSON_stringify).

Lemma init_well_formed (v0 : T) : well_formed (init v0).
Proof. split; [cbn; lia | reflexivity]. Qed.

Lemma setState_cases (a : SetStateArg T) (s : State T) :
  let r := match a with
           | Updater f => f (lastCommittedState s)
           | Value v => v
           end in
  (JSON_stringify r = JSON_stringify (lastCommittedState s) /\
   setState a s = s) \/
  (JSON_stringify r <> JSON_stringify (lastCommittedState s) /\
   setState a s
   = mkState (firstn (index s + 1) (history s) ++ [r])
       (List.length (firstn (index s + 1) (history s) ++ [r]) - 1) r).
Proof.
  intros r. unfold HistoryState.setState. fold r.
  destruct (String.eqb _ _) eqn:E.
  - left. split; [now apply String.eqb_eq | reflexivity].
  - right. split; [now apply String.eqb_neq | reflexivity].
Qed.

Lemma pushed_length (s : State T) (r : T) :
  (index s < List.length (history s))%nat ->
  List.length (firstn (index s + 1) (history s) ++ [r]) = (index s + 2)%nat.
Proof.
  intros H. rewrite length_app, length_firstn. cbn. lia.
Qed.

Lemma setState_well_formed (a : SetStateArg T) (s : State T) :
  well_formed s -> well_formed (setState a s).
Proof.
  intros [Hi Hn].
  destruct (setState_cases a s) as [[_ E] | [_ E]]; rewrite E.
  - split; assumption.
  - unfold well_formed. cbn [history index lastCommittedState].
    rewrite pushed_length by assumption. split; [lia|].
    rewrite nth_error_app2; rewrite length_firstn; [|lia].
    replace (index s + 2 - 1 - Nat.min (index s + 1) (List.length (history s)))%nat
      with 0%nat by lia.
    reflexivity.
Qed.

Lemma undo_well_formed (s : State T) :
  well_formed s -> exists s', undo s = Some s' /\ well_formed s'.
Proof.
  intros [Hi Hn]. unfold undo. destruct (Nat.ltb 0 (index s)) eqn:E.
  - apply Nat.ltb_lt in E.
    destruct (nth_error (history s) (index s - 1)) as [v|] eqn:Ev.
    + eexists. split; [reflexivity|]. split; cbn; [lia | exact Ev].
    + apply nth_error_None in Ev. lia.
  - exists s. split; [reflexivity | split; assumption].
Qed.

Lemma redo_well_formed (s : State T) :
  well_formed s -> exists s', redo s = Some s' /\ well_formed s'.
Proof.
  intros [Hi Hn]. unfold redo. destruct (Z.ltb _ _) eqn:E.
  - apply Z.ltb_lt in E.
    destruct (nth_error (history s) (index s + 1)) as [v|] eqn:Ev.
    + eexists. split; [reflexivity|]. split; cbn; [lia | exact Ev].
    + apply nth_error_None in Ev. lia.
  - exists s. split; [reflexivity | split; assumption].
Qed.

Lemma call_well_formed (c : Call T) (s : State T) :
  well_formed s ->
  exists s', call T JSON_stringify c s = Some s' /\ well_formed s'.
Proof.
  intros Hs. destruct c; cbn.
  - eexists. split; [reflexivity|]. now apply setState_well_formed.
  - now apply undo_well_formed.
  - now apply redo_well_formed.
Qed.

(** X21. Undo and redo are inverse of each other: when an undo is possible,
    a redo after it gives back the very same hook state, and when a redo is
    possible, an undo after it does. *)
Theorem undo_redo_inverse (s : State T) :
  well_formed s ->
  (canUndo s = true ->
   exists s', undo s = Some s' /\ canRedo s' = true /\ redo s' = Some s) /\
  (canRedo s = true ->
   exists s', redo s = Some s' /\ canUndo s' = true /\ undo s' = Some s).
Proof.
  intros [Hi Hn]. destruct s as [h i l]. cbn in Hi, Hn.
  unfold canUndo, canRedo, undo, redo. cbn [history index]. split; intros E.
  - rewrite E. apply Nat.ltb_lt in E.
    destruct (nth_error h (i - 1)) as [v|] eqn:Ev;
      [|apply nth_error_None in Ev; lia].
    eexists. split; [reflexivity|]. cbn [history index].
    assert (E' : Z.ltb (Z.of_nat (i - 1)) (Z.of_nat (List.length h) - 1) = true)
      by (apply Z.ltb_lt; lia).
    rewrite E'. split; [reflexivity|].
    replace (i - 1 + 1)%nat with i by lia. rewrite Hn. reflexivity.
  - rewrite E. apply Z.ltb_lt in E.
    destruct (nth_error h (i + 1)) as [v|] eqn:Ev;
      [|apply nth_error_None in Ev; lia].
    eexists. split; [reflexivity|]. cbn [history index].
    assert (E' : Nat.ltb 0 (i + 1) = true) by (apply Nat.ltb_lt; lia).
    rewrite E'. split; [reflexivity|].
    replace (i + 1 - 1)%nat with i by lia. rewrite Hn. reflexivity.
Qed.

(** X22. A [setState] that changes the state (its JSON text differs from the
    last committed one) makes the new state current, can be undone to
    exactly the state before it, and leaves nothing to redo: states that had
    been undone are dropped from the history. *)
Theorem setState_commits_and_drops_redo (a : SetStateArg T) (s : State T) :
  well_formed s ->
  let r := match a with
           | Updater f => f (lastCommittedState s)
           | Value v => v
           end in
  JSON_stringify r <> JSON_stringify (lastCommittedState s) ->
  let s1 := setState a s in
  state s1 = Some r /\
  canRedo s1 = false /\
  canUndo s1 = true /\
  history s1 = firstn (index s + 1) (history s) ++ [r] /\
  exists s2,
    undo s1 = Some s2 /\ state s2 = state s /\ index s2 = index s /\
    redo s2 = Some s1.
Proof.
  intros [Hi Hn] r Hne s1. subst s1.
  destruct (setState_cases a s) as [[E _] | [_ E]]; [contradiction|].
  fold r in E. rewrite E. clear E.
  pose proof (pushed_length s r Hi) as Hlen.
  unfold state, canRedo, canUndo, undo, redo.
  cbn [history index lastCommittedState]. rewrite Hlen.
  replace (index s + 2 - 1)%nat with (index s + 1)%nat by lia.
  assert (Elast : nth_error (firstn (index s + 1) (history s) ++ [r])
                    (index s + 1) = Some r).
  { rewrite nth_error_app2; rewrite length_firstn; [|lia].
    replace (index s + 1 - Nat.min (index s + 1) (List.length (history s)))%nat
      with 0%nat by lia.
    reflexivity. }
  assert (Eprev : nth_error (firstn (index s + 1) (history s) ++ [r])
                    (index s) = Some (lastCommittedState s)).
  { rewrite nth_error_app1 by (rewrite length_firstn; lia).
    rewrite nth_error_firstn.
    assert (Hlt : Nat.ltb (index s) (index s + 1) = true)
      by (apply Nat.ltb_lt; lia).
    rewrite Hlt. exact Hn. }
  split; [exact Elast|].
  split; [apply Z.ltb_ge; lia|].
  assert (Eu : Nat.ltb 0 (index s + 1) = true) by (apply Nat.ltb_lt; lia).
  split; [exact Eu|]. split; [reflexivity|].
  rewrite Eu. replace (index s + 1 - 1)%nat with (index s) by lia.
  rewrite Eprev. eexists. split; [reflexivity|].
  cbn [history index lastCommittedState]. rewrite Hlen.
  split; [rewrite Eprev, Hn; reflexivity|]. split; [reflexivity|].
  assert (Er : Z.ltb (Z.of_nat (index s)) (Z.of_nat (index s + 2) - 1) = true)
    by (apply Z.ltb_lt; lia).
  rewrite Er, Elast. reflexivity.
Qed.

(** *** The first entry of the history *)

Lemma call_keeps_first (v0 : T) (c : Call T) (s s' : State T) :
  well_formed s ->
  nth_error (history s) 0 = Some v0 ->
  call T JSON_stringify c s = Some s' ->
  nth_error (history s') 0 = Some v0.
Proof.
  intros [Hi Hn] H0 Hc. destruct c; cbn in Hc.
  - injection Hc as <-.
    destruct (setState_cases newState s) as [[_ E] | [_ E]]; rewrite E.
    + exact H0.
    + cbn [history]. rewrite nth_error_app1 by (rewrite length_firstn; lia).
      rewrite nth_error_firstn.
      assert (Hlt : Nat.ltb 0 (index s + 1) = true) by (apply Nat.ltb_lt; lia).
      rewrite Hlt. exact H0.
  - unfold undo in Hc. destruct (Nat.ltb 0 (index s));
      [destruct (nth_error (history s) (index s - 1))|];
      inversion Hc; subst; exact H0.
  - unfold redo in Hc. destruct (Z.ltb _ _);
      [destruct (nth_error (history s) (index s + 1))|];
      inversion Hc; subst; exact H0.
Qed.

(** *** Renders *)

Local Abbreviation render := (render T JSON_stringify).
Local Abbreviation renders := (renders T JSON_stringify).
Local Abbreviation callsIn := (callsIn T JSON_stringify).

Lemma item_of_nat (h : list T) (i : nat) :
  item h (Z.of_nat i) = nth_error h i.
Proof.
  unfold item. destruct (Z.ltb_spec (Z.of_nat i) 0); [lia|].
  now rewrite Nat2Z.id.
Qed.

Lemma render_nil (eager : bool) (r : Cells T) : render eager [] r = Some r.
Proof. destruct r. reflexivity. Qed.

(** One call from the render of a well-formed state: the next render has
    the cells that [setState], [undo] and [redo] give, whenever React runs
    the updater. *)
Lemma render_single (eager : bool) (c : Call T) (s : State T) :
  well_formed s ->
  exists s',
    call T JSON_stringify c s = Some s' /\ well_formed s' /\
    render eager [c] (cells s) = Some (cells s').
Proof.
  intros Hs. destruct (call_well_formed c s Hs) as (s' & Ec & Hs').
  exists s'. split; [exact Ec|]. split; [exact Hs'|].
  destruct Hs as [Hi Hn]. destruct c as [a| |]; cbn in Ec.
  - injection Ec as <-.
    unfold HistoryState.render, HistoryState.callsIn, HistoryState.callIn.
    cbn [cells c_history c_index c_lastCommittedState
         p_lastCommittedState option_map].
    assert (Er : (match a with
                  | Updater f => Some (f (lastCommittedState s))
                  | Value v => Some v
                  end)
                 = Some (match a with
                         | Updater f => f (lastCommittedState s)
                         | Value v => v
                         end)) by (destruct a; reflexivity).
    rewrite Er. clear Er.
    unfold HistoryState.setState.
    destruct (String.eqb _ _); [destruct s; reflexivity|].
    unfold rerender, slice0.
    cbn [p_history p_index c_index fold_left app applyIndexUpdate fst snd
         history index lastCommittedState].
    destruct (Z.ltb_spec (Z.of_nat (index s) + 1) 0); [lia|].
    replace (Z.to_nat (Z.of_nat (index s) + 1)) with (index s + 1)%nat by lia.
    unfold cells. cbn [history index lastCommittedState]. f_equal. f_equal.
    rewrite pushed_length by assumption. lia.
  - unfold undo in Ec.
    unfold HistoryState.render, HistoryState.callsIn, HistoryState.callIn,
      queueUpdater.
    cbn [cells c_history c_index c_lastCommittedState idle p_history p_index
         p_lastCommittedState].
    destruct (Nat.ltb_spec 0 (index s)) as [Hlt | Hge].
    + destruct (Z.ltb_spec 0 (Z.of_nat (index s))); [|lia].
      destruct (nth_error (history s) (index s - 1)) as [v|] eqn:Ev;
        [|discriminate].
      injection Ec as <-.
      destruct eager; unfold rerender;
        cbn [andb p_history p_index p_lastCommittedState cells c_history
             c_index fold_left app applyIndexUpdate fst snd history index
             lastCommittedState];
        replace (Z.of_nat (index s) + -1)%Z with (Z.of_nat (index s - 1))
          by lia;
        rewrite item_of_nat, Ev; reflexivity.
    + destruct (Z.ltb_spec 0 (Z.of_nat (index s))); [lia|].
      injection Ec as <-. reflexivity.
  - unfold redo in Ec.
    unfold HistoryState.render, HistoryState.callsIn, HistoryState.callIn,
      queueUpdater.
    cbn [cells c_history c_index c_lastCommittedState idle p_history p_index
         p_lastCommittedState].
    destruct (Z.ltb_spec (Z.of_nat (index s))
                (Z.of_nat (List.length (history s)) - 1)) as [Hlt | Hge].
    + destruct (nth_error (history s) (index s + 1)) as [v|] eqn:Ev;
        [|discriminate].
      injection Ec as <-.
      destruct eager; unfold rerender;
        cbn [andb p_history p_index p_lastCommittedState cells c_history
             c_index fold_left app applyIndexUpdate fst snd history index
             lastCommittedState];
        replace (Z.of_nat (index s) + 1)%Z with (Z.of_nat (index s + 1))
          by lia;
        rewrite item_of_nat, Ev; reflexivity.
    + injection Ec as <-. reflexivity.
Qed.

(** Renders with at most one call each keep the state well formed and the
    first entry of the history in place. *)
Lemma renders_single_calls (v0 : T) (rs : list (bool * list (Call T)))
  (s : State T) :
  Forall (fun r => (List.length (snd r) <= 1)%nat) rs ->
  well_formed s ->
  nth_error (history s) 0 = Some v0 ->
  exists s',
    renders rs (cells s) = Some (cells s') /\ well_formed s' /\
    nth_error (history s') 0 = Some v0.
Proof.
  intros Hrs. revert s.
  induction Hrs as [|[eager cs] rs Hone _ IH]; intros s Hs H0.
  - exists s. repeat split; try apply Hs. exact H0.
  - cbn [HistoryState.renders]. cbn [snd] in Hone.
    destruct cs as [|c [|c' cs]]; [| |cbn in Hone; lia].
    + rewrite render_nil. now apply IH.
    + destruct (render_single eager c s Hs) as (s1 & Ec & H1 & Er).
      rewrite Er. apply IH; [exact H1|].
      exact (call_keeps_first v0 c s s1 Hs H0 Ec).
Qed.


(** [n] renders with one [undo] each. *)
Lemma single_undos (eager : bool) (n : nat) (s : State T) :
  well_formed s -> (n <= index s)%nat ->
  exists v,
    nth_error (history s) (index s - n) = Some v /\
    renders (repeat (eager, [Undo]) n) (cells s)
    = Some (mkCells (history s) (Z.of_nat (index s - n)) (Some v)).
Proof.
  revert s. induction n as [|n IH]; intros s Hs Hn.
  - exists (lastCommittedState s). rewrite Nat.sub_0_r.
    split; [apply Hs | reflexivity].
  - cbn [repeat HistoryState.renders].
    destruct (render_single eager Undo s Hs) as (s1 & Ec & H1 & Er).
    rewrite Er. cbn [call] in Ec. unfold undo in Ec.
    destruct (Nat.ltb_spec 0 (index s)); [|lia].
    destruct (nth_error (history s) (index s - 1)) as [v1|]; [|discriminate].
    injection Ec as <-.
    destruct (IH _ H1) as (v & Ev & E); [cbn; lia|].
    cbn [history index] in Ev, E.
    replace (index s - 1 - n)%nat with (index s - S n)%nat in Ev, E by lia.
    exists v. split; [exact Ev | exact E].
Qed.

(** The queue of [k] updaters of [undo], worked through from index [i]. *)
Lemma undo_queue (r : Cells T) (k : nat) (i : Z) (l : option T) :
  fold_left (applyIndexUpdate T r) (repeat (PrevIndex (-1)) k) (i, l)
  = ((i - Z.of_nat k)%Z,
     match k with
     | O => l
     | S _ => item (c_history r) (i - Z.of_nat k)
     end).
Proof.
  revert i l. induction k as [|k IH]; intros i l.
  - cbn. f_equal. lia.
  - cbn [repeat fold_left applyIndexUpdate fst snd]. rewrite IH.
    replace (i + -1 - Z.of_nat k)%Z with (i - Z.of_nat (S k))%Z by lia.
    destruct k; [|reflexivity].
    replace (i - Z.of_nat 1)%Z with (i + -1)%Z by lia. reflexivity.
Qed.

(** Once something is queued, each further [undo] of the render queues its
    updater. *)
Lemma undos_queued (eager : bool) (r : Cells T) (k : nat) (q : Pending T) :
  (0 < c_index r)%Z ->
  eager && idle T q = false ->
  callsIn eager r (repeat Undo k) q
  = Some (mkPending T (p_history T q)
            (p_index T q ++ repeat (PrevIndex (-1)) k)
            (p_lastCommittedState T q)).
Proof.
  intros Hi. revert q. induction k as [|k IH]; intros q Hq.
  - cbn. rewrite app_nil_r. destruct q. reflexivity.
  - cbn [repeat HistoryState.callsIn HistoryState.callIn].
    destruct (Z.ltb_spec 0 (c_index r)); [|lia].
    unfold queueUpdater. rewrite Hq. rewrite IH.
    + cbn [p_history p_index p_lastCommittedState].
      rewrite <- app_assoc. reflexivity.
    + unfold idle. cbn [p_history p_index].
      destruct (p_history T q), (p_index T q), eager; reflexivity.
Qed.

(** Any number of [undo] calls made from one render passes its test on the
    rendered index: the index goes down by their number. *)
Lemma undos_in_one_render (eager : bool) (r : Cells T) (k : nat) :
  (0 < c_index r)%Z ->
  render eager (repeat Undo (S k)) r
  = Some (mkCells (c_history r) (c_index r - Z.of_nat (S k))
            (item (c_history r) (c_index r - Z.of_nat (S k)))).
Proof.
  intros Hi. unfold HistoryState.render.
  cbn [repeat HistoryState.callsIn HistoryState.callIn].
  destruct (Z.ltb_spec 0 (c_index r)); [|lia].
  unfold queueUpdater. cbn [idle p_history p_index p_lastCommittedState].
  destruct eager; cbn [andb].
  - rewrite undos_queued by (exact Hi || reflexivity).
    unfold rerender.
    cbn [p_history p_index p_lastCommittedState app fold_left
         applyIndexUpdate fst snd].
    rewrite undo_queue. cbn [fst snd].
    replace (c_index r + -1 - Z.of_nat k)%Z
      with (c_index r - Z.of_nat (S k))%Z by lia.
    destruct k; [|reflexivity].
    replace (c_index r - Z.of_nat 1)%Z with (c_index r + -1)%Z by lia.
    reflexivity.
  - rewrite undos_queued by (exact Hi || reflexivity).
    unfold rerender.
    cbn [p_history p_index p_lastCommittedState app].
    change (PrevIndex (-1) :: repeat (PrevIndex (-1)) k)
      with (repeat (PrevIndex (-1)) (S k)).
    rewrite undo_queue. reflexivity.
Qed.

(** X20. Whatever series of renders the hook goes through, as long as at
    most one of [setState], [undo] and [redo] is called from each render,
    the index stays a position of the history, and the state the hook
    returns ([history[index]]) is defined and is the last committed
    state. *)
Theorem history_always_well_formed (initialState : T)
  (rs : list (bool * list (Call T))) :
  Forall (fun r => (List.length (snd r) <= 1)%nat) rs ->
  exists r : Cells T,
    renders rs (mount initialState) = Some r /\
    (0 <= c_index r < Z.of_nat (List.length (c_history r)))%Z /\
    exists v : T, c_state r = Some v /\ c_lastCommittedState r = Some v.
Proof.
  intros Hrs.
  destruct (renders_single_calls initialState rs (init initialState) Hrs
              (init_well_formed initialState) eq_refl)
    as (s & E & (Hi & Hn) & _).
  exists (cells s). split; [exact E|].
  cbn [cells c_history c_index c_lastCommittedState]. split; [lia|].
  exists (lastCommittedState s). unfold c_state.
  cbn [cells c_history c_index]. rewrite item_of_nat.
  split; [exact Hn | reflexivity].
Qed.

(** X23. From any render the hook reaches with at most one call per render,
    as many [undo] calls as the index says bring back the initial state,
    whether each is made from a render of its own or all from one render,
    and nothing is left to undo.  One more [undo] from that same render
    still passes its test on the rendered index: the index is then -1, and
    the state the hook returns and the ref are [undefined]. *)
Theorem undo_reaches_initial_state (initialState : T)
  (rs : list (bool * list (Call T))) (eager : bool) :
  Forall (fun r => (List.length (snd r) <= 1)%nat) rs ->
  exists r : Cells T,
    renders rs (mount initialState) = Some r /\
    let n := Z.to_nat (c_index r) in
    let first := mkCells (c_history r) 0 (Some initialState) in
    c_state first = Some initialState /\
    c_canUndo first = false /\
    renders (repeat (eager, [Undo]) n) r = Some first /\
    render eager (repeat Undo n) r = Some first /\
    ((0 < n)%nat ->
     exists broken : Cells T,
       render eager (repeat Undo (S n)) r = Some broken /\
       c_index broken = (-1)%Z /\
       c_state broken = None /\
       c_lastCommittedState broken = None).
Proof.
  intros Hrs.
  destruct (renders_single_calls initialState rs (init initialState) Hrs
              (init_well_formed initialState) eq_refl)
    as (s & E & Hs & H0).
  exists (cells s). split; [exact E|].
  cbn [cells c_history c_index]. rewrite Nat2Z.id.
  cbv zeta. unfold c_state, c_canUndo. cbn [c_history c_index].
  change 0%Z with (Z.of_nat 0). rewrite item_of_nat.
  split; [exact H0|]. split; [reflexivity|].
  split; [|split].
  - destruct (single_undos eager (index s) s Hs (Nat.le_refl _))
      as (v & Ev & Er).
    rewrite Nat.sub_diag in Ev, Er. rewrite Er.
    rewrite H0 in Ev. injection Ev as <-. reflexivity.
  - destruct (index s) as [|k] eqn:Ek.
    + rewrite render_nil. unfold cells. rewrite Ek. do 2 f_equal.
      destruct Hs as [_ Hn]. rewrite Ek, H0 in Hn. now injection Hn.
    + fold (cells s).
      rewrite undos_in_one_render
        by (cbn [cells c_index]; lia).
      cbn [cells c_history c_index]. rewrite Ek.
      replace (Z.of_nat (S k) - Z.of_nat (S k))%Z with (Z.of_nat 0) by lia.
      rewrite item_of_nat, H0. reflexivity.
  - intros Hpos. eexists. split.
    + apply undos_in_one_render. cbn [cells c_index]. lia.
    + cbn [cells c_history c_index].
      replace (Z.of_nat (index s) - Z.of_nat (S (index s)))%Z with (-1)%Z
        by lia.
      repeat split.
Qed.

End Hook.

(** *** The theorems above on a hook over strings *)

Lemma undo_redo_inverse_witness :
  let quote := Examples.quote in
  let s := setState string quote (Value "b"%string) (init "a"%string) in
  (well_formed s /\ canUndo s = true) /\
  exists s', undo s = Some s' /\ canRedo s' = true /\ redo s' = Some s.
Proof.
  intros quote s.
  assert (Hs : well_formed s) by (split; [cbn; lia | reflexivity]).
  assert (Hu : canUndo s = true) by reflexivity.
  split; [split; assumption|].
  exact (proj1 (undo_redo_inverse string s Hs) Hu).
Defined.

Lemma setState_commits_and_drops_redo_witness :
  let quote := Examples.quote in
  let s := mkState ["a"; "b"; "c"]%string 1 "b"%string in
  let a := Updater (fun prev : string => (prev ++ "!")%string) in
  (well_formed s /\
   quote ("b" ++ "!")%string <> quote (lastCommittedState s)) /\
  state (setState string quote a s) = Some "b!"%string /\
  canRedo (setState string quote a s) = false /\
  history (setState string quote a s) = ["a"; "b"; "b!"]%string.
Proof.
  intros quote s a.
  assert (Hs : well_formed s) by (split; [cbn; lia | reflexivity]).
  assert (Hne : quote ("b" ++ "!")%string <> quote (lastCommittedState s))
    by discriminate.
  split; [split; assumption|].
  pose proof (setState_commits_and_drops_redo string quote a s Hs Hne) as H.
  cbn zeta in H.
  split; [exact (proj1 H)|]. split; [exact (proj1 (proj2 H))|].
  exact (proj1 (proj2 (proj2 (proj2 H)))).
Defined.

(** A hook over strings: a change, an undo, a render without calls, a
    change through an updater, and a redo that finds nothing to redo. *)
Lemma history_always_well_formed_witness :
  let quote := Examples.quote in
  let rs :=
    [(true, [SetState (Value "b"%string)]);
     (false, [Undo]);
     (true, []);
     (false, [SetState (Updater (fun prev : string => (prev ++ "!")%string))]);
     (true, [Redo])] in
  Forall (fun r => (List.length (snd r) <= 1)%nat) rs /\
  exists r : Cells string,
    renders string quote rs (mount "a"%string) = Some r /\
    (0 <= c_index r < Z.of_nat (List.length (c_history r)))%Z /\
    exists v : string, c_state r = Some v /\ c_lastCommittedState r = Some v.
Proof.
  intros quote rs.
  assert (H : Forall (fun r => (List.length (snd r) <= 1)%nat) rs)
    by (repeat constructor).
  split; [exact H|].
  exact (history_always_well_formed string quote "a"%string rs H).
Defined.

(** Two changes, then the two undos that lead back to ["a"]. *)
Lemma undo_reaches_initial_state_witness :
  let quote := Examples.quote in
  let rs :=
    [(true, [SetState (Value "b"%string)]);
     (false, [SetState (Value "c"%string)])] in
  Forall (fun r => (List.length (snd r) <= 1)%nat) rs /\
  exists r : Cells string,
    renders string quote rs (mount "a"%string) = Some r /\
    let n := Z.to_nat (c_index r) in
    let first := mkCells (c_history r) 0 (Some "a"%string) in
    c_state first = Some "a"%string /\
    c_canUndo first = false /\
    renders string quote (repeat (false, [Undo]) n) r = Some first /\
    render string quote false (repeat Undo n) r = Some first /\
    ((0 < n)%nat ->
     exists broken : Cells string,
       render string quote false (repeat Undo (S n)) r = Some broken /\
       c_index broken = (-1)%Z /\
       c_state broken = None /\
       c_lastCommittedState broken = None).
Proof.
  intros quote rs.
  assert (H : Forall (fun r => (List.length (snd r) <= 1)%nat) rs)
    by (repeat constructor).
  split; [exact H|].
  exact (undo_reaches_initial_state string quote "a"%string rs false H).
Defined.

(** Two [undo] calls made from the one render that follows a change:
    both pass the test [index > 0] on the rendered index 1, and the index
    ends at -1, whenever React runs the first updater. *)
Lemma two_undos_in_one_render (eager : bool) :
  let quote := Examples.quote in
  renders string quote
    [(eager, [SetState (Value "b"%string)]); (eager, [Undo; Undo])]
    (mount "a"%string)
  = Some (mkCells ["a"; "b"]%string (-1) None).
Proof. destruct eager; reflexivity. Qed.

End HistoryFacts.

(** ** The application's lists *)

Module AppFacts.
Import App.

(** *** The generation history *)

Lemma recordImage_length (imageUrl : string) (prev : list string) :
  (List.length (recordImage imageUrl prev) <= 10)%nat.
Proof. unfold recordImage. rewrite length_firstn. lia. Qed.

Lemma deleteFromHistory_length (imageSrc : string) (prev : list string) :
  (List.length (handleDeleteFromHistory imageSrc prev) <= List.length prev)%nat.
Proof. unfold handleDeleteFromHistory. apply filter_length_le. Qed.

Lemma firstn_cons_firstn {A : Type} (n : nat) (x : A) (l : list A) :
  firstn (S n) (x :: firstn (S n) l) = firstn (S n) (x :: l).
Proof.
  rewrite !firstn_cons. f_equal. rewrite firstn_firstn.
  f_equal. lia.
Qed.

(** X24. The generation history never holds more than ten images, whatever
    series of recordings and deletions is applied to it; and after a series
    of recordings alone it holds the ten most recent images, newest first. *)
Theorem generation_history_ten_newest :
  (forall cs : list HistoryChange,
      (List.length (fold_left (fun h c => changeHistory c h) cs []) <= 10)%nat) /\
  (forall urls : list string,
      fold_left (fun h u => recordImage u h) urls [] = firstn 10 (rev urls)).
Proof.
  split.
  - intros cs.
    assert (H : forall h, (List.length h <= 10)%nat ->
                (List.length (fold_left (fun h c => changeHistory c h) cs h)
                 <= 10)%nat).
    { induction cs as [|c cs IH]; intros h Hh; cbn [fold_left].
      - exact Hh.
      - apply IH. destruct c; cbn [changeHistory].
        + apply recordImage_length.
        + pose proof (deleteFromHistory_length imageSrc h). lia. }
    apply H. cbn. lia.
  - intros urls. induction urls as [|u urls IH] using rev_ind.
    + reflexivity.
    + rewrite fold_left_app, IH, rev_app_distr. cbn [fold_left rev app].
      unfold recordImage. apply (firstn_cons_firstn 9).
Qed.

(** X25. Deleting an image from the generation history removes every entry
    equal to it and nothing else: the other entries stay, in their order and
    number. *)
Theorem delete_removes_every_copy (imageSrc : string) (prev : list string) :
  ~ In imageSrc (handleDeleteFromHistory imageSrc prev) /\
  forall img : string,
    img <> imageSrc ->
    filter (String.eqb img) (handleDeleteFromHistory imageSrc prev)
    = filter (String.eqb img) prev.
Proof.
  unfold handleDeleteFromHistory. split.
  - intros H. apply filter_In in H. destruct H as [_ H].
    rewrite String.eqb_refl in H. discriminate.
  - intros img Hne. induction prev as [|x prev IH]; [reflexivity|].
    cbn [filter]. destruct (String.eqb x imageSrc) eqn:E; cbn [negb filter].
    + apply String.eqb_eq in E. subst x.
      assert (E' : String.eqb img imageSrc = false)
        by (now apply String.eqb_neq).
      rewrite E'. exact IH.
    + destruct (String.eqb img x); [f_equal|]; exact IH.
Qed.

(** *** Presets *)

Lemma findIndex_none {A : Type} (pred : A -> bool) (arr : list A) :
  findIndex pred arr = None -> forall x, In x arr -> pred x = false.
Proof.
  induction arr as [|y arr IH]; intros H x Hx; [destruct Hx|].
  cbn in H. destruct (pred y) eqn:Ey; [discriminate|].
  destruct (findIndex pred arr); [discriminate|].
  destruct Hx as [<- | Hx]; [exact Ey | now apply IH].
Qed.

Lemma find_assign {A : Type} (pred : A -> bool) (arr : list A) (i : nat)
  (v : A) :
  findIndex pred arr = Some i -> pred v = true ->
  find pred (assign i v arr) = Some v.
Proof.
  revert i. induction arr as [|y arr IH]; intros i H Hv; [discriminate|].
  cbn in H. destruct (pred y) eqn:Ey.
  - injection H as <-. cbn. now rewrite Hv.
  - destruct (findIndex pred arr) as [j|] eqn:Ej; [|discriminate].
    injection H as <-. cbn. rewrite Ey. now apply IH.
Qed.

Lemma find_app_new {A : Type} (pred : A -> bool) (arr : list A) (v : A) :
  findIndex pred arr = None -> pred v = true ->
  find pred (arr ++ [v]) = Some v.
Proof.
  intros H Hv. induction arr as [|y arr IH]; cbn.
  - now rewrite Hv.
  - cbn in H. destruct (pred y); [discriminate|].
    destruct (findIndex pred arr); [discriminate|]. now apply IH.
Qed.

Lemma map_name_assign (arr : list Preset.t) (i : nat) (v : Preset.t) :
  findIndex (fun p => String.eqb (Preset.name p) (Preset.name v)) arr
  = Some i ->
  map Preset.name (assign i v arr) = map Preset.name arr /\
  List.length (assign i v arr) = List.length arr.
Proof.
  revert i. induction arr as [|y arr IH]; intros i H; [discriminate|].
  cbn in H. destruct (String.eqb (Preset.name y) (Preset.name v)) eqn:Ey.
  - injection H as <-. apply String.eqb_eq in Ey. cbn. now rewrite Ey.
  - destruct (findIndex _ arr) as [j|] eqn:Ej; [|discriminate].
    injection H as <-. cbn. destruct (IH j eq_refl) as [E1 E2].
    now rewrite E1, E2.
Qed.

Section Host.

Variable trim : string -> string.

(** X26. Saving a preset under a name that is not blank and loading the
    preset then found under that name restores every setting that was saved;
    only the negative prompt, which presets do not carry, stays as it is in
    the settings loaded into.  The name field is cleared. *)
Theorem preset_save_load_round_trip (presetName : string)
  (settings current : Settings.t) (prevPresets : list Preset.t) :
  trim presetName <> EmptyString ->
  let saved := handleSavePreset trim presetName settings prevPresets in
  snd saved = EmptyString /\
  exists preset : Preset.t,
    find (fun p => String.eqb (Preset.name p) (trim presetName)) (fst saved)
    = Some preset /\
    handleLoadPreset preset current
    = Settings.mk (Settings.mode settings) (Settings.prompt settings)
        (Settings.environment settings) (Settings.pose settings)
        (Settings.lighting settings) (Settings.negativePrompt current)
        (Settings.artStyle settings) (Settings.modifier settings)
        (Settings.aspectRatio settings) (Settings.scale settings)
        (Settings.enhancementLevel settings).
Proof.
  intros Hname saved. subst saved. unfold handleSavePreset.
  apply String.eqb_neq in Hname. rewrite Hname. cbn [fst snd Preset.name].
  split; [reflexivity|].
  set (newPreset := Preset.mk _ _ _ _ _ _ _ _ _ _ _).
  exists newPreset. split; [|reflexivity].
  assert (Hv : String.eqb (Preset.name newPreset) (trim presetName) = true)
    by apply String.eqb_refl.
  destruct (findIndex _ prevPresets) as [i|] eqn:Ei.
  - now apply find_assign.
  - now apply find_app_new.
Qed.

(** X27. Preset names stay distinct.  If no two presets share a name, then
    after a save none do: a save under an existing name replaces that preset
    in place (same number of presets, same names in the same order) and a
    save under a new name appends one; after a confirmed deletion the name
    is gone and the remaining names are still distinct. *)
Theorem preset_names_stay_distinct (presetName : string)
  (settings : Settings.t) (prevPresets : list Preset.t) :
  NoDup (map Preset.name prevPresets) ->
  let saved := fst (handleSavePreset trim presetName settings prevPresets) in
  NoDup (map Preset.name saved) /\
  (In (trim presetName) (map Preset.name prevPresets) ->
   map Preset.name saved = map Preset.name prevPresets) /\
  (trim presetName <> EmptyString ->
   ~ In (trim presetName) (map Preset.name prevPresets) ->
   map Preset.name saved = map Preset.name prevPresets ++ [trim presetName]) /\
  forall name : string,
    NoDup (map Preset.name (handleDeletePreset true name saved)) /\
    ~ In name (map Preset.name (handleDeletePreset true name saved)).
Proof.
  intros Hnd saved. subst saved. unfold handleSavePreset.
  destruct (String.eqb (trim presetName) EmptyString) eqn:Eblank;
    cbn [fst Preset.name].
  - split; [exact Hnd|]. split; [reflexivity|].
    split; [intros Hne; apply String.eqb_eq in Eblank; contradiction|].
    intros name. unfold handleDeletePreset. split.
    + clear Eblank. induction prevPresets as [|p ps IH]; [constructor|].
      cbn in Hnd |- *. inversion Hnd as [|? ? Hp Hps]; subst.
      destruct (String.eqb (Preset.name p) name); cbn.
      * now apply IH.
      * constructor; [|now apply IH].
        intros Hin. apply Hp. apply in_map_iff in Hin.
        destruct Hin as (q & Eq & Hq). apply filter_In in Hq.
        apply in_map_iff. exists q. split; [exact Eq | apply Hq].
    + intros Hin. apply in_map_iff in Hin. destruct Hin as (q & Eq & Hq).
      apply filter_In in Hq. destruct Hq as [_ Hq]. subst name.
      rewrite String.eqb_refl in Hq. discriminate.
  - set (newPreset := Preset.mk _ _ _ _ _ _ _ _ _ _ _).
    set (pred := fun p => String.eqb (Preset.name p) (trim presetName)).
    assert (Hsaved :
      NoDup (map Preset.name
               match findIndex pred prevPresets with
               | Some i => assign i newPreset prevPresets
               | None => prevPresets ++ [newPreset]
               end)).
    { destruct (findIndex pred prevPresets) as [i|] eqn:Ei.
      - destruct (map_name_assign prevPresets i newPreset Ei) as [E _].
        rewrite E. exact Hnd.
      - rewrite map_app. cbn [map Preset.name newPreset].
        apply NoDup_app; [exact Hnd | repeat constructor; intros [] |].
        intros n Hn [<- | []]. apply in_map_iff in Hn.
        destruct Hn as (q & Eq & Hq).
        pose proof (findIndex_none pred prevPresets Ei q Hq) as Hf.
        unfold pred in Hf. rewrite Eq, String.eqb_refl in Hf. discriminate. }
    split; [exact Hsaved|]. split; [|split].
    + intros Hin. destruct (findIndex pred prevPresets) as [i|] eqn:Ei.
      * apply (map_name_assign prevPresets i newPreset Ei).
      * apply in_map_iff in Hin. destruct Hin as (q & Eq & Hq).
        pose proof (findIndex_none pred prevPresets Ei q Hq) as Hf.
        unfold pred in Hf. rewrite Eq, String.eqb_refl in Hf. discriminate.
    + intros _ Hnin. destruct (findIndex pred prevPresets) as [i|] eqn:Ei.
      * exfalso. apply Hnin. clear - Ei.
        revert i Ei. induction prevPresets as [|y ps IH]; intros i Ei;
          [discriminate|].
        cbn in Ei. unfold pred in Ei at 1.
        destruct (String.eqb (Preset.name y) (trim presetName)) eqn:Ey.
        -- left. now apply String.eqb_eq.
        -- destruct (findIndex pred ps) as [j|] eqn:Ej; [|discriminate].
           right. now apply (IH j).
      * rewrite map_app. reflexivity.
    + intros name. unfold handleDeletePreset.
      set (saved := match findIndex pred prevPresets with
                    | Some i => assign i newPreset prevPresets
                    | None => prevPresets ++ [newPreset]
                    end) in *.
      clearbody saved. split.
      * induction saved as [|p ps IH]; [constructor|].
        cbn in Hsaved |- *. inversion Hsaved as [|? ? Hp Hps]; subst.
        destruct (String.eqb (Preset.name p) name); cbn.
        -- now apply IH.
        -- constructor; [|now apply IH].
           intros Hin. apply Hp. apply in_map_iff in Hin.
           destruct Hin as (q & Eq & Hq). apply filter_In in Hq.
           apply in_map_iff. exists q. split; [exact Eq | apply Hq].
      * intros Hin. apply in_map_iff in Hin. destruct Hin as (q & Eq & Hq).
        apply filter_In in Hq. destruct Hq as [_ Hq]. subst name.
        rewrite String.eqb_refl in Hq. discriminate.
Qed.

End Host.

End AppFacts.

(** ** Upload validation *)

Module UploaderFacts.
Import ImageUploader.

(** X28. [validateAndUpload] hands a file to [onImageUpload] exactly when its
    type is PNG, JPEG or WebP and its size is at most 10485760 bytes, and
    then hands over that very file; with no file it calls nothing; and a file
    of another type is reported as an invalid type even when it is also too
    large. *)
Theorem upload_accepts_exactly_valid_files (file : option File) :
  (forall f : File,
      validateAndUpload file = onImageUpload f <->
      file = Some f /\
      In (type f) ["image/png"; "image/jpeg"; "image/webp"]%string /\
      (size f <= 10485760)%Z) /\
  (validateAndUpload file = Nothing <-> file = None) /\
  (forall f : File,
      file = Some f ->
      ~ In (type f) ["image/png"; "image/jpeg"; "image/webp"]%string ->
      validateAndUpload file
      = onError "Invalid file type. Please upload a PNG, JPG, or WEBP image.").
Proof.
  assert (Hinc : forall t,
             includes ALLOWED_MIME_TYPES t = true <->
             In t ["image/png"; "image/jpeg"; "image/webp"]%string).
  { intros t. unfold includes, ALLOWED_MIME_TYPES. rewrite existsb_exists.
    split.
    - intros (x & Hx & E). apply String.eqb_eq in E. now subst x.
    - intros Hin. exists t. split; [exact Hin | apply String.eqb_refl]. }
  unfold validateAndUpload. split; [|split].
  - intros f. destruct file as [g|]; [|split; [discriminate | intros [H _];
      discriminate]].
    destruct (includes ALLOWED_MIME_TYPES (type g)) eqn:Et; cbn [negb].
    + destruct (Z.ltb MAX_FILE_SIZE (size g)) eqn:Es.
      * split; [discriminate|]. intros (E & _ & Hs). injection E as ->.
        apply Z.ltb_lt in Es. unfold MAX_FILE_SIZE, MAX_FILE_SIZE_MB in Es.
        lia.
      * split.
        -- intros E. injection E as ->. split; [reflexivity|].
           split; [now apply Hinc|].
           apply Z.ltb_ge in Es. unfold MAX_FILE_SIZE, MAX_FILE_SIZE_MB in Es.
           lia.
        -- intros (E & _). now injection E as ->.
    + split; [discriminate|]. intros (E & Ht & _). injection E as ->.
      apply Hinc in Ht. congruence.
  - destruct file as [g|]; [|split; reflexivity].
    split; [|discriminate].
    destruct (negb _); [discriminate|]. destruct (Z.ltb _ _); discriminate.
  - intros f -> Ht.
    destruct (includes ALLOWED_MIME_TYPES (type f)) eqn:Et; [|reflexivity].
    apply Hinc in Et. contradiction.
Qed.

End UploaderFacts.

(** ** The call to the image model *)

Module GeminiFacts.
Import GeminiService.

Lemma prefix_app (p rest : string) : String.prefix p (p ++ rest) = true.
Proof.
  induction p as [|c p IH]; cbn.
  - now destruct rest.
  - destruct (Ascii.ascii_dec c c) as [_|N]; [exact IH | contradiction].
Qed.

Lemma rethrow_known (p rest : string) :
  In p knownErrors -> rethrow (Error (p ++ rest)) = Error (p ++ rest).
Proof.
  intros Hin. unfold rethrow.
  assert (E : existsb (fun e => String.prefix e (p ++ rest)) knownErrors
              = true).
  { apply existsb_exists. exists p. split; [exact Hin | apply prefix_app]. }
  now rewrite E.
Qed.

Section Host.

Variable split : string -> string -> list string.
Variable trim : string -> string.
Variable matchMimeType : string -> option string.

Local Abbreviation transformImage :=
  (transformImage split trim matchMimeType).
Local Abbreviation acceptedUrl := (acceptedUrl split matchMimeType).

(** With an accepted data URL and a response that holds no image, the
    promise is rejected with what the [catch] block makes of the error. *)
Lemma no_image_outcome (dataUrl : string) (response : Response) :
  acceptedUrl dataUrl = true ->
  findPart (fun part => truthy (inlineDataData part)) response = None ->
  transformImage dataUrl (Resolved response)
  = Rejected (rethrow (noImageError trim response)).
Proof.
  unfold GeminiService.acceptedUrl. rewrite !andb_true_iff.
  intros [[H0 H1] Hm] Hno.
  unfold GeminiService.transformImage, tryBlock, readResponse.
  now rewrite H0, H1, Hm, Hno.
Qed.

(** X29. The messages written for the user reach the caller unchanged.  With
    an accepted data URL and a response without an image: a block reason
    gives "Request was blocked. Reason: " and the reason (and its message,
    if any); otherwise one of the finish reasons SAFETY, IMAGE_SAFETY,
    IMAGE_OTHER, OTHER, MAX_TOKENS, RECITATION gives its fixed message;
    otherwise, with no finish reason or STOP, a text part gives "Image
    generation failed: " and the trimmed text. *)
Theorem user_messages_pass_through (dataUrl : string) (response : Response) :
  acceptedUrl dataUrl = true ->
  findPart (fun part => truthy (inlineDataData part)) response = None ->
  (truthy (blockReasonOf response) = true ->
   transformImage dataUrl (Resolved response)
   = Rejected
       (Error
          ("Request was blocked. Reason: "
           ++ (if truthy (blockReasonMessageOf response)
               then str (blockReasonOf response) ++ ": "
                    ++ str (blockReasonMessageOf response)
               else str (blockReasonOf response))))) /\
  (truthy (blockReasonOf response) = false ->
   forall finish : string,
     finishReasonOf response = Some finish ->
     In finish ["SAFETY"; "IMAGE_SAFETY"; "IMAGE_OTHER"; "OTHER";
                "MAX_TOKENS"; "RECITATION"]%string ->
     transformImage dataUrl (Resolved response)
     = Rejected (noImageError trim response) /\
     exists p rest : string,
       In p knownErrors /\ noImageError trim response = Error (p ++ rest)) /\
  (truthy (blockReasonOf response) = false ->
   truthy (finishReasonOf response) = false
   \/ finishReasonOf response = Some "STOP"%string ->
   forall part : Part,
     findPart (fun part => truthy (text part)) response = Some part ->
     transformImage dataUrl (Resolved response)
     = Rejected
         (Error ("Image generation failed: " ++ trim (str (text part))))).
Proof.
  intros Hurl Hno. rewrite (no_image_outcome dataUrl response Hurl Hno).
  split; [|split].
  - intros Hb. unfold noImageError. rewrite Hb.
    set (full := if truthy (blockReasonMessageOf response) then _ else _).
    change ("Request was blocked. Reason: " ++ full)%string
      with ("Request was blocked." ++ (" Reason: " ++ full))%string.
    now rewrite rethrow_known by (right; left; reflexivity).
  - intros Hb finish Hf Hin.
    assert (Hmsg : exists p rest : string,
               In p knownErrors
               /\ noImageError trim response = Error (p ++ rest)).
    { unfold noImageError. rewrite Hb, Hf. cbn in Hin.
      destruct Hin as [<- | [<- | [<- | [<- | [<- | [<- | []]]]]]];
        cbn [truthy str String.eqb Ascii.eqb Bool.eqb negb andb orb].
      - exists "Image generation was blocked"%string. eexists.
        split; [|reflexivity]. cbn; tauto.
      - exists "Image generation was blocked"%string. eexists.
        split; [|reflexivity]. cbn; tauto.
      - exists "The model could not generate"%string. eexists.
        split; [|reflexivity]. cbn; tauto.
      - exists "The model could not generate"%string. eexists.
        split; [|reflexivity]. cbn; tauto.
      - exists "The request was too long"%string. eexists.
        split; [|reflexivity]. cbn; tauto.
      - exists "The response was blocked"%string. eexists.
        split; [|reflexivity]. cbn; tauto. }
    split; [|exact Hmsg].
    destruct Hmsg as (p & rest & Hp & E). rewrite E.
    now rewrite rethrow_known.
  - intros Hb Hfin part Hpart.
    assert (Ht : truthy (text part) = true).
    { unfold findPart in Hpart.
      destruct (firstCandidate response) as [c|]; [|discriminate].
      destruct (content c) as [ct|]; [|discriminate].
      destruct (parts ct) as [ps|]; [|discriminate].
      apply find_some in Hpart. apply Hpart. }
    assert (Hf : truthy (finishReasonOf response)
                 && negb (String.eqb (str (finishReasonOf response)) "STOP")
                 = false).
    { destruct Hfin as [E | E]; rewrite E; [reflexivity|].
      reflexivity. }
    unfold noImageError. rewrite Hb, Hf, Hpart, Ht.
    change ("Image generation failed: " ++ trim (str (text part)))%string
      with ("Image generation failed:"
            ++ (" " ++ trim (str (text part))))%string.
    now rewrite rethrow_known by (left; reflexivity).
Qed.

(** X30. The function's other messages start with none of the known
    prefixes, so the [catch] block wraps them.  A data URL that fails the
    first check is reported as "Failed to communicate with the AI model:
    Invalid image data URL format." whatever the model would answer; and
    with an accepted data URL and a response without image or block
    reason, a finish reason outside the listed ones (and not STOP) is
    reported as "Failed to communicate with the AI model: Image generation
    failed. Reason: R.", and a response with no finish reason (or STOP) and
    no text part as "Failed to communicate with the AI model: No image was
    generated. ...". *)
Theorem own_messages_are_wrapped (dataUrl : string) :
  (forall generateContent : Settled Response,
      truthy (nth_error (split dataUrl ",") 0) = false
      \/ truthy (nth_error (split dataUrl ",") 1) = false ->
      transformImage dataUrl generateContent
      = Rejected
          (Error "Failed to communicate with the AI model: Invalid image data URL format.")) /\
  (forall response : Response,
      acceptedUrl dataUrl = true ->
      findPart (fun part => truthy (inlineDataData part)) response = None ->
      truthy (blockReasonOf response) = false ->
      (forall finish : string,
          finishReasonOf response = Some finish ->
          finish <> EmptyString ->
          ~ In finish ["STOP"; "SAFETY"; "IMAGE_SAFETY"; "IMAGE_OTHER";
                       "OTHER"; "MAX_TOKENS"; "RECITATION"]%string ->
          transformImage dataUrl (Resolved response)
          = Rejected
              (Error
                 ("Failed to communicate with the AI model: "
                  ++ "Image generation failed. Reason: " ++ finish ++ "."))) /\
      (truthy (finishReasonOf response) = false
       \/ finishReasonOf response = Some "STOP"%string ->
       findPart (fun part => truthy (text part)) response = None ->
       transformImage dataUrl (Resolved response)
       = Rejected
           (Error "Failed to communicate with the AI model: No image was generated. The model may have refused the request due to content policies or an internal error."))).
Proof.
  split.
  - intros generateContent Hbad.
    unfold GeminiService.transformImage, tryBlock.
    assert (E : negb (truthy (nth_error (split dataUrl ",") 0))
                || negb (truthy (nth_error (split dataUrl ",") 1)) = true).
    { destruct Hbad as [E | E]; rewrite E; [reflexivity|].
      apply orb_true_r. }
    rewrite E. reflexivity.
  - intros response Hurl Hno Hb.
    rewrite (no_image_outcome dataUrl response Hurl Hno).
    unfold noImageError. rewrite Hb. split.
    + intros finish Hf Hne Hnin. rewrite Hf. cbn [truthy str].
      assert (N : forall lit : string,
                 In lit ["STOP"; "SAFETY"; "IMAGE_SAFETY"; "IMAGE_OTHER";
                         "OTHER"; "MAX_TOKENS"; "RECITATION"]%string ->
                 String.eqb finish lit = false).
      { intros lit Hlit. apply String.eqb_neq. intros ->. contradiction. }
      apply String.eqb_neq in Hne. rewrite Hne.
      rewrite !N by (cbn; tauto). reflexivity.
    + intros Hfin Htext.
      assert (Hf : truthy (finishReasonOf response)
                   && negb (String.eqb (str (finishReasonOf response)) "STOP")
                   = false).
      { destruct Hfin as [E | E]; rewrite E; reflexivity. }
      rewrite Hf, Htext. reflexivity.
Qed.

End Host.

End GeminiFacts.

(** ** The theorems on the application and the model call, on runs *)

Module AppExamples.
Import App Examples.

Lemma preset_save_load_round_trip_witness :
  let saved := handleSavePreset HostStrings.trim "  Desk " desk [] in
  HostStrings.trim "  Desk " <> EmptyString /\
  snd saved = EmptyString /\
  exists preset : Preset.t,
    find (fun p => String.eqb (Preset.name p) "Desk") (fst saved)
    = Some preset /\
    Settings.prompt (handleLoadPreset preset blank) = Settings.prompt desk /\
    Settings.negativePrompt (handleLoadPreset preset blank)
    = "text, watermarks"%string.
Proof.
  intros saved.
  assert (Hname : HostStrings.trim "  Desk " <> EmptyString) by discriminate.
  split; [exact Hname|].
  destruct (AppFacts.preset_save_load_round_trip HostStrings.trim "  Desk "
              desk blank [] Hname) as (Hsnd & preset & Hfind & Hload).
  split; [exact Hsnd|]. exists preset. split; [exact Hfind|].
  rewrite Hload. split; reflexivity.
Defined.

Lemma preset_names_stay_distinct_witness :
  let prev := fst (handleSavePreset HostStrings.trim "Desk" blank []) in
  NoDup (map Preset.name prev) /\
  NoDup (map Preset.name
           (fst (handleSavePreset HostStrings.trim " Desk " desk prev))) /\
  map Preset.name (fst (handleSavePreset HostStrings.trim " Desk " desk prev))
  = map Preset.name prev.
Proof.
  intros prev.
  assert (Hnd : NoDup (map Preset.name prev))
    by (repeat constructor; intros []).
  split; [exact Hnd|].
  pose proof (AppFacts.preset_names_stay_distinct HostStrings.trim " Desk "
                desk prev Hnd) as H.
  cbn zeta in H. destruct H as (H1 & H2 & _).
  split; [exact H1|]. apply H2. left. reflexivity.
Defined.

End AppExamples.

Module GeminiExamples.
Import GeminiService Examples.

Lemma user_messages_pass_through_witness :
  (acceptedUrl HostStrings.split HostStrings.matchMimeType url = true /\
   findPart (fun part => truthy (inlineDataData part)) blocked = None /\
   truthy (blockReasonOf blocked) = true) /\
  transformImage HostStrings.split HostStrings.trim
    HostStrings.matchMimeType url (Resolved blocked)
  = Rejected (Error "Request was blocked. Reason: PROHIBITED_CONTENT").
Proof.
  assert (Hurl : acceptedUrl HostStrings.split HostStrings.matchMimeType url
                 = true) by reflexivity.
  assert (Hno : findPart (fun part => truthy (inlineDataData part)) blocked
                = None) by reflexivity.
  assert (Hb : truthy (blockReasonOf blocked) = true) by reflexivity.
  split; [repeat split; assumption|].
  exact (proj1 (GeminiFacts.user_messages_pass_through HostStrings.split
                  HostStrings.trim HostStrings.matchMimeType url blocked
                  Hurl Hno) Hb).
Defined.

Lemma own_messages_are_wrapped_witness :
  (acceptedUrl HostStrings.split HostStrings.matchMimeType url = true /\
   findPart (fun part => truthy (inlineDataData part)) cutShort = None /\
   truthy (blockReasonOf cutShort) = false /\
   finishReasonOf cutShort = Some "MALFORMED_FUNCTION_CALL"%string) /\
  transformImage HostStrings.split HostStrings.trim
    HostStrings.matchMimeType url (Resolved cutShort)
  = Rejected
      (Error "Failed to communicate with the AI model: Image generation failed. Reason: MALFORMED_FUNCTION_CALL.").
Proof.
  assert (Hurl : acceptedUrl HostStrings.split HostStrings.matchMimeType url
                 = true) by reflexivity.
  assert (Hno : findPart (fun part => truthy (inlineDataData part)) cutShort
                = None) by reflexivity.
  assert (Hb : truthy (blockReasonOf cutShort) = false) by reflexivity.
  assert (Hf : finishReasonOf cutShort = Some "MALFORMED_FUNCTION_CALL"%string)
    by reflexivity.
  split; [repeat split; assumption|].
  apply (proj1 (proj2 (GeminiFacts.own_messages_are_wrapped HostStrings.split
                         HostStrings.trim HostStrings.matchMimeType url)
                  cutShort Hurl Hno Hb) "MALFORMED_FUNCTION_CALL"%string Hf).
  - discriminate.
  - cbn. intros [H | [H | [H | [H | [H | [H | [H | []]]]]]]]; discriminate.
Defined.

End GeminiExamples.
